(** * ckb animation-script engine (AnimScript): model and verified properties

    The development embeds [animscript.cpp] of ckb: the catalog of animation
    scripts ([scan], [load], [list]) and the per-instance protocol runtime
    ([init], [parameters], [start], [retrigger], [keypress], [stop],
    [readProcess], [frame], [nextFrame]).

    Conventions of the embedding:
    - [QString]/[QByteArray] are [string]s of 8-bit characters;
    - a C++ [double] that holds a parameter value is a [double]: a finite
      number, an infinity or NaN, with the comparisons of IEEE 754 (false on
      NaN).  A finite number is the exact rational it stands for, and
      products are not rounded;
    - the time delta of [nextFrame] is the exact quotient of two integers,
      and the loop that subtracts 1.0 from it is run on it.  In binary64
      the quotient is rounded to 53 bits, and the subtraction is exact
      below 2^53 and absorbed above it, where the loop of the source does
      not end.  The statements about the commands of [nextFrame] are
      therefore made for elapsed times below 2^53 milliseconds; there the
      number of [frame 1] commands is the same in binary64, and the last
      delta differs from the exact one by the rounding of the quotient.
      Text produced from a delta carries its reduced fraction;
    - [quint64] timestamps are [Z] with the wrap-around modulo 2^64 written
      out; [int] fields are [Z];
    - [QHash] is a [gmap], [QMap] an association list sorted by key (its
      iteration order is part of the behaviour);
    - the child process is its pending standard output and the commands
      written to its standard input; dereferencing the null process handle
      makes an operation fail ([None]);
    - Qt routines whose text formats are not fixed by this repository
      (percent decoding, UUID text, number parsing) are the methods of the
      class [Qt], and the engine is verified for every instance. *)

From Stdlib Require Import ZArith QArith Qround String Ascii List Bool Lia Lqa.
From stdpp Require Import base gmap strings list fin_maps.
Import ListNotations.

Local Open Scope string_scope.
Local Open Scope list_scope.

(** ** Qt strings *)

Module QString.

(** [QChar::isSpace] / C [isspace] on 7-bit characters. *)
Definition isSpace (c : ascii) : bool :=
  let n := nat_of_ascii c in
  ((9 <=? n)%nat && (n <=? 13)%nat) || (n =? 32)%nat.

Fixpoint skipSpaces (l : list ascii) : list ascii :=
  match l with
  | c :: l' => if isSpace c then skipSpaces l' else l
  | [] => []
  end.

(** [trimmed()]: white space removed from both ends. *)
Definition trimmed (s : string) : string :=
  string_of_list_ascii
    (rev (skipSpaces (rev (skipSpaces (list_ascii_of_string s))))).

(** [split(" ")] with the default [KeepEmptyParts]. *)
Fixpoint split (s : string) : list string :=
  match s with
  | EmptyString => [EmptyString]
  | String c s' =>
      if Ascii.eqb c " " then EmptyString :: split s'
      else match split s' with
           | w :: ws => String c w :: ws
           | [] => [String c EmptyString]
           end
  end.

Definition lowerChar (c : ascii) : ascii :=
  let n := nat_of_ascii c in
  if ((65 <=? n)%nat && (n <=? 90)%nat) then ascii_of_nat (n + 32) else c.

Definition upperChar (c : ascii) : ascii :=
  let n := nat_of_ascii c in
  if ((97 <=? n)%nat && (n <=? 122)%nat) then ascii_of_nat (n - 32) else c.

Fixpoint mapChars (f : ascii -> ascii) (s : string) : string :=
  match s with
  | EmptyString => EmptyString
  | String c s' => String (f c) (mapChars f s')
  end.

Definition toLower : string -> string := mapChars lowerChar.
Definition toUpper : string -> string := mapChars upperChar.

(** [components[i]] on a list known to be long enough. *)
Definition at_ (l : list string) (i : nat) : string := nth i l "".

(** [while(components.count() < 8) components.append("")]. *)
Definition padTo (n : nat) (l : list string) : list string :=
  l ++ List.repeat "" (n - length l).

End QString.

(** ** Doubles *)

(** The values of a C++ [double]: a finite number, an infinity, or NaN. *)
Inductive double :=
| DNum (q : Q)
| DInf (negative : bool)
| DNaN.

Coercion DNum : Q >-> double.
Bind Scope Q_scope with double.

Definition Qltb (x y : Q) : bool := negb (Qle_bool y x).

(** [x < y] on doubles; [x > y] is [dlt y x].  A comparison with NaN is
    false. *)
Definition dlt (x y : double) : bool :=
  match x, y with
  | DNaN, _ | _, DNaN => false
  | DNum a, DNum b => Qltb a b
  | DNum _, DInf negative => negb negative
  | DInf negative, DNum _ => negative
  | DInf a, DInf b => a && negb b
  end.

(** ** Reference versions of the Qt text routines

    The engine is verified for arbitrary percent decoding, UUID text and
    number parsing.  The versions below follow Qt on plain 7-bit input and
    instantiate the theorems on concrete data. *)

Module QtRef.

Definition hexDigit (c : ascii) : option N :=
  let n := N_of_ascii c in
  if ((48 <=? n) && (n <=? 57))%N then Some (n - 48)%N
  else if ((97 <=? n) && (n <=? 102))%N then Some (n - 87)%N
  else if ((65 <=? n) && (n <=? 70))%N then Some (n - 55)%N
  else None.

(** [%XY] becomes the byte with the hexadecimal code [XY]. *)
Fixpoint fromPercentEncoding (s : string) : string :=
  match s with
  | EmptyString => EmptyString
  | String c rest =>
      if Ascii.eqb c "%" then
        match rest with
        | String a (String b rest') =>
            match hexDigit a, hexDigit b with
            | Some h, Some l =>
                String (ascii_of_N (16 * h + l)) (fromPercentEncoding rest')
            | _, _ => String c (fromPercentEncoding rest)
            end
        | _ => String c (fromPercentEncoding rest)
        end
      else String c (fromPercentEncoding rest)
  end.

(** The value of a string of hexadecimal digits, if it is one. *)
Fixpoint hexValue (acc : N) (s : string) : option N :=
  match s with
  | EmptyString => Some acc
  | String c rest =>
      match hexDigit c with
      | Some d => hexValue (16 * acc + d)%N rest
      | None => None
      end
  end.

Fixpoint dropChars (drop : ascii -> bool) (s : string) : string :=
  match s with
  | EmptyString => EmptyString
  | String c rest =>
      if drop c then dropChars drop rest else String c (dropChars drop rest)
  end.

(** [s] without an opening brace at its start and a closing one at its
    end. *)
Definition unbraced (s : string) : string :=
  let s := match s with
           | String c rest => if Ascii.eqb c "{" then rest else s
           | EmptyString => s
           end in
  match String.get (String.length s - 1) s with
  | Some c => if Ascii.eqb c "}" then String.substring 0 (String.length s - 1) s else s
  | None => s
  end.

Definition isDashAt (n : nat) (s : string) : bool :=
  match String.get n s with
  | Some c => Ascii.eqb c "-"
  | None => false
  end.

(** Five fields of 8, 4, 4, 4 and 12 hexadecimal digits separated by
    dashes, with optional braces; the null UUID for any other text. *)
Definition uuidFromString (s : string) : N :=
  let t := unbraced s in
  let digits := dropChars (fun c => Ascii.eqb c "-") t in
  if (String.length t =? 36)%nat && (String.length digits =? 32)%nat
     && isDashAt 8 t && isDashAt 13 t && isDashAt 18 t && isDashAt 23 t
  then match hexValue 0 digits with Some v => v | None => 0%N end
  else 0%N.

Definition hexChar (d : N) : ascii :=
  if (d <? 10)%N then ascii_of_N (48 + d) else ascii_of_N (87 + d).

(** The [n] lowest hexadecimal digits of [v], most significant first. *)
Fixpoint hexField (n : nat) (v : N) : string :=
  match n with
  | O => EmptyString
  | S n' => hexField n' (v / 16)%N +:+ String (hexChar (v mod 16)%N) EmptyString
  end.

(** [{xxxxxxxx-xxxx-xxxx-xxxx-xxxxxxxxxxxx}]. *)
Definition uuidToString (u : N) : string :=
  "{" +:+ hexField 8 (u / 2 ^ 96)%N +:+ "-" +:+ hexField 4 (u / 2 ^ 80)%N
  +:+ "-" +:+ hexField 4 (u / 2 ^ 64)%N +:+ "-" +:+ hexField 4 (u / 2 ^ 48)%N
  +:+ "-" +:+ hexField 12 u +:+ "}".

Definition decDigit (c : ascii) : option Z :=
  let n := Z.of_N (N_of_ascii c) in
  if ((48 <=? n) && (n <=? 57))%Z then Some (n - 48)%Z else None.

(** Digits with an optional fraction: the numerator and the power of ten of
    the denominator read so far. *)
Fixpoint decimal (num : Z) (scale : positive) (frac : bool) (s : string)
  : option Q :=
  match s with
  | EmptyString => Some (num # scale)
  | String c rest =>
      if Ascii.eqb c "." then
        if frac then None else decimal num scale true rest
      else
        match decDigit c with
        | Some d =>
            decimal (10 * num + d)%Z (if frac then (10 * scale)%positive else scale)
                    frac rest
        | None => None
        end
  end.

(** The texts [nan], [inf], [+inf] and [-inf] in any case, or an optionally
    signed decimal number without exponent; 0 when the text is none of
    these.  A decimal number is taken exactly, not rounded to binary64. *)
Definition stringToDouble (s : string) : double :=
  let l := QString.toLower s in
  if String.eqb l "nan" then DNaN
  else if String.eqb l "inf" || String.eqb l "+inf" then DInf false
  else if String.eqb l "-inf" then DInf true
  else
    match s with
    | EmptyString => 0
    | String c rest =>
        if Ascii.eqb c "-" then
          match decimal 0 1 false rest with Some q => Qred (- q) | None => 0 end
        else
          match decimal 0 1 false s with Some q => Qred q | None => 0 end
    end.

(** Hexadecimal digits of a number below 2^32; 0 for any other text. *)
Definition stringToUInt16 (s : string) : Z :=
  match s with
  | EmptyString => 0%Z
  | _ =>
      match hexValue 0 s with
      | Some v => if (v <? 2 ^ 32)%N then Z.of_N v else 0%Z
      | None => 0%Z
      end
  end.

End QtRef.

(** ** QVariant *)

Inductive QVariant :=
| VInvalid
| VBool (b : bool)
| VInt (z : Z)
| VDouble (d : double)
| VString (s : string).

(** ** QMap: entries kept in ascending key order *)

Module QMap.
Section Ordered.
Context {V : Type}.

Definition t := list (string * V).

Fixpoint lookup (k : string) (m : list (string * V)) : option V :=
  match m with
  | [] => None
  | (k', v) :: m' => if String.eqb k k' then Some v else lookup k m'
  end.

Definition contains (k : string) (m : list (string * V)) : bool :=
  match lookup k m with Some _ => true | None => false end.

(** [m[k] = v]: replaces the entry of an equal key, else inserts in order. *)
Fixpoint insert (k : string) (v : V) (m : list (string * V)) : list (string * V) :=
  match m with
  | [] => [(k, v)]
  | (k', v') :: m' =>
      match String.compare k k' with
      | Lt => (k, v) :: m
      | Eq => (k, v) :: m'
      | Gt => (k', v') :: insert k v m'
      end
  end.

Definition keys (m : list (string * V)) : list string := map fst m.
Definition values (m : list (string * V)) : list V := map snd m.
End Ordered.
End QMap.

(** ** Numbers of the program *)

(** C [round]: to the nearest integer, halves away from zero. *)
Definition round (x : Q) : Z :=
  if Qle_bool 0 x then Qfloor (x + (1 # 2)) else Qceiling (x - (1 # 2)).

Definition ONE_DAY : Q := 24 * 60 * 60.

Definition INT_MAX : Z := 2147483647.
Definition INT_MIN : Z := -2147483648.

(** [round(x * 1000.)] stored in an [int] ([setDuration], lines 248 and
    251).  The product and the rounding of an infinity or of NaN are an
    infinity or NaN again.  Converting these, or a number outside the range
    of [int], to [int] is undefined in C++; the model takes [INT_MIN], the
    result of the x86 conversion instruction. *)
Definition toMsec (x : double) : Z :=
  match x with
  | DNum q =>
      let z := round (q * 1000)%Q in
      if ((INT_MIN <=? z) && (z <=? INT_MAX))%Z then z else INT_MIN
  | DInf _ | DNaN => INT_MIN
  end.

(** [quint64] arithmetic. *)
Definition wrap64 (z : Z) : Z := z mod 2 ^ 64.

(** ** Parameter definitions and script descriptors *)

Module Param.
Inductive Type_ :=
| INVALID | LONG | DOUBLE | BOOL | RGB | ARGB
| GRADIENT | AGRADIENT | ANGLE | STRING | LABEL.

Definition Type_eqb (a b : Type_) : bool :=
  match a, b with
  | INVALID, INVALID | LONG, LONG | DOUBLE, DOUBLE | BOOL, BOOL
  | RGB, RGB | ARGB, ARGB | GRADIENT, GRADIENT | AGRADIENT, AGRADIENT
  | ANGLE, ANGLE | STRING, STRING | LABEL, LABEL => true
  | _, _ => false
  end.

(** Modelled from the spec: the [Param] struct is declared in animscript.h,
    which is not among the sources; its seven fields are those of the
    spec's ParamDefinition, in the order of the brace initialisers of
    [load]. *)
Record t := mk {
  type : Type_;
  name : string;
  prefix : string;
  postfix : string;
  defaultValue : QVariant;
  minimum : QVariant;
  maximum : QVariant
}.
End Param.

Inductive KpMode := KP_NONE | KP_NAME | KP_POSITION.

(** A [QUuid] is its 128-bit value; the null UUID is 0. *)
Definition QUuid := N.

Module Info.
(** Modelled from the spec: the [_info] struct is declared in animscript.h,
    which is not among the sources; the fields are those of the spec's
    ScriptDescriptor and of the assignments in [load]. *)
Record t := mk {
  guid : QUuid;
  name : string;
  version : string;
  year : string;
  author : string;
  license : string;
  description : string;
  kpMode : KpMode;
  absoluteTime : bool;
  repeat : bool;
  preempt : bool;
  liveParams : bool;
  params : list Param.t
}.

(** A default-constructed [_info]: null guid, empty strings and list.  The
    flags are indeterminate in C++ until [load] assigns them. *)
Definition empty : t :=
  mk 0%N "" "" "" "" "" "" KP_NONE false false false false [].

Definition set_guid (v : QUuid) (i : t) : t :=
  mk v (name i) (version i) (year i) (author i) (license i) (description i)
     (kpMode i) (absoluteTime i) (repeat i) (preempt i) (liveParams i) (params i).
Definition set_name (v : string) (i : t) : t :=
  mk (guid i) v (version i) (year i) (author i) (license i) (description i)
     (kpMode i) (absoluteTime i) (repeat i) (preempt i) (liveParams i) (params i).
Definition set_version (v : string) (i : t) : t :=
  mk (guid i) (name i) v (year i) (author i) (license i) (description i)
     (kpMode i) (absoluteTime i) (repeat i) (preempt i) (liveParams i) (params i).
Definition set_year (v : string) (i : t) : t :=
  mk (guid i) (name i) (version i) v (author i) (license i) (description i)
     (kpMode i) (absoluteTime i) (repeat i) (preempt i) (liveParams i) (params i).
Definition set_author (v : string) (i : t) : t :=
  mk (guid i) (name i) (version i) (year i) v (license i) (description i)
     (kpMode i) (absoluteTime i) (repeat i) (preempt i) (liveParams i) (params i).
Definition set_license (v : string) (i : t) : t :=
  mk (guid i) (name i) (version i) (year i) (author i) v (description i)
     (kpMode i) (absoluteTime i) (repeat i) (preempt i) (liveParams i) (params i).
Definition set_description (v : string) (i : t) : t :=
  mk (guid i) (name i) (version i) (year i) (author i) (license i) v
     (kpMode i) (absoluteTime i) (repeat i) (preempt i) (liveParams i) (params i).
Definition set_kpMode (v : KpMode) (i : t) : t :=
  mk (guid i) (name i) (version i) (year i) (author i) (license i) (description i)
     v (absoluteTime i) (repeat i) (preempt i) (liveParams i) (params i).
Definition set_absoluteTime (v : bool) (i : t) : t :=
  mk (guid i) (name i) (version i) (year i) (author i) (license i) (description i)
     (kpMode i) v (repeat i) (preempt i) (liveParams i) (params i).
Definition set_repeat (v : bool) (i : t) : t :=
  mk (guid i) (name i) (version i) (year i) (author i) (license i) (description i)
     (kpMode i) (absoluteTime i) v (preempt i) (liveParams i) (params i).
Definition set_preempt (v : bool) (i : t) : t :=
  mk (guid i) (name i) (version i) (year i) (author i) (license i) (description i)
     (kpMode i) (absoluteTime i) (repeat i) v (liveParams i) (params i).
Definition set_liveParams (v : bool) (i : t) : t :=
  mk (guid i) (name i) (version i) (year i) (author i) (license i) (description i)
     (kpMode i) (absoluteTime i) (repeat i) (preempt i) v (params i).
Definition set_params (v : list Param.t) (i : t) : t :=
  mk (guid i) (name i) (version i) (year i) (author i) (license i) (description i)
     (kpMode i) (absoluteTime i) (repeat i) (preempt i) (liveParams i) v.

(** [_info.params.append(p)]. *)
Definition append (p : Param.t) (i : t) : t := set_params (params i ++ [p]) i.
End Info.

(** Modelled from the spec: [hasParam] is defined in animscript.h, which is
    not among the sources.  "[hasParam(name)] is a case-insensitive
    membership test over the ordered list." *)
Definition hasParam (i : Info.t) (name : string) : bool :=
  existsb (fun p => String.eqb (QString.toLower (Param.name p)) (QString.toLower name))
          (Info.params i).


(** ** The state of an animation instance *)

(** Modelled from the spec: [KeyPos] and [KeyMap] are declared outside the
    sources.  "KeyPos (external): {x, y} grid coordinates for a named key;
    looked up, never owned".  [_map.key(name)] is the null pointer for a key
    that the map does not have. *)
Module KeyPos.
Record t := { x : Z; y : Z }.
End KeyPos.

Definition KeyMap := string -> option KeyPos.t.

(** The lines that the engine writes to the standard input of the child.
    A number or a value stands for its text. *)
Inductive Cmd :=
| BeginKeymap
| Keycount (n : nat)
| KeymapKey (key : string) (kx ky : Z)
| EndKeymap
| BeginParams
| ParamLine (key : string) (value : QVariant)
| EndParams
| BeginRun
| Frame (delta : Q)
| Start
| KeyByName (key : string) (pressed : bool)
| KeyByPos (kx ky : Z) (pressed : bool).

(** A running child ([QProcess]): the complete lines it has written that
    were not read yet, and what was written to it, oldest first. *)
Record Child := {
  childOutput : list string;
  childInput : list Cmd
}.

(** Ghost events, for stating the order of frame advances and frame reads. *)
Inductive Event :=
| Advanced (timestamp : Z)
| FrameRead.

(** The fields of an [AnimScript] object.  [history] is ghost state: it
    records every call of [nextFrame] and every frame completed by
    [readProcess], in order, and no operation reads it. *)
Record AnimScript := mkAnimScript {
  _info : Info.t;
  _path : string;
  _map : KeyMap;
  _keys : list string;
  _paramValues : list (string * QVariant);
  initialized : bool;
  stopped : bool;
  firstFrame : bool;
  readFrame : bool;
  readAnyFrame : bool;
  durationMsec : Z;
  repeatMsec : Z;
  lastFrame : Z;
  minX : Z;
  minY : Z;
  _colors : gmap string Z;
  inputBuffer : list string;
  process : option Child;
  history : list Event
}.

Definition set_info (v : Info.t) (s : AnimScript) : AnimScript :=
  mkAnimScript v (_path s) (_map s) (_keys s) (_paramValues s) (initialized s)
    (stopped s) (firstFrame s) (readFrame s) (readAnyFrame s) (durationMsec s)
    (repeatMsec s) (lastFrame s) (minX s) (minY s) (_colors s) (inputBuffer s)
    (process s) (history s) .
Definition set_path (v : string) (s : AnimScript) : AnimScript :=
  mkAnimScript (_info s) v (_map s) (_keys s) (_paramValues s) (initialized s)
    (stopped s) (firstFrame s) (readFrame s) (readAnyFrame s) (durationMsec s)
    (repeatMsec s) (lastFrame s) (minX s) (minY s) (_colors s) (inputBuffer s)
    (process s) (history s) .
Definition set_map (v : KeyMap) (s : AnimScript) : AnimScript :=
  mkAnimScript (_info s) (_path s) v (_keys s) (_paramValues s)
    (initialized s) (stopped s) (firstFrame s) (readFrame s) (readAnyFrame s)
    (durationMsec s) (repeatMsec s) (lastFrame s) (minX s) (minY s)
    (_colors s) (inputBuffer s) (process s) (history s) .
Definition set_keys (v : list string) (s : AnimScript) : AnimScript :=
  mkAnimScript (_info s) (_path s) (_map s) v (_paramValues s) (initialized s)
    (stopped s) (firstFrame s) (readFrame s) (readAnyFrame s) (durationMsec s)
    (repeatMsec s) (lastFrame s) (minX s) (minY s) (_colors s) (inputBuffer s)
    (process s) (history s) .
Definition set_paramValues (v : list (string * QVariant)) (s : AnimScript) : AnimScript :=
  mkAnimScript (_info s) (_path s) (_map s) (_keys s) v (initialized s)
    (stopped s) (firstFrame s) (readFrame s) (readAnyFrame s) (durationMsec s)
    (repeatMsec s) (lastFrame s) (minX s) (minY s) (_colors s) (inputBuffer s)
    (process s) (history s) .
Definition set_initialized (v : bool) (s : AnimScript) : AnimScript :=
  mkAnimScript (_info s) (_path s) (_map s) (_keys s) (_paramValues s) v
    (stopped s) (firstFrame s) (readFrame s) (readAnyFrame s) (durationMsec s)
    (repeatMsec s) (lastFrame s) (minX s) (minY s) (_colors s) (inputBuffer s)
    (process s) (history s) .
Definition set_stopped (v : bool) (s : AnimScript) : AnimScript :=
  mkAnimScript (_info s) (_path s) (_map s) (_keys s) (_paramValues s)
    (initialized s) v (firstFrame s) (readFrame s) (readAnyFrame s)
    (durationMsec s) (repeatMsec s) (lastFrame s) (minX s) (minY s)
    (_colors s) (inputBuffer s) (process s) (history s) .
Definition set_firstFrame (v : bool) (s : AnimScript) : AnimScript :=
  mkAnimScript (_info s) (_path s) (_map s) (_keys s) (_paramValues s)
    (initialized s) (stopped s) v (readFrame s) (readAnyFrame s)
    (durationMsec s) (repeatMsec s) (lastFrame s) (minX s) (minY s)
    (_colors s) (inputBuffer s) (process s) (history s) .
Definition set_readFrame (v : bool) (s : AnimScript) : AnimScript :=
  mkAnimScript (_info s) (_path s) (_map s) (_keys s) (_paramValues s)
    (initialized s) (stopped s) (firstFrame s) v (readAnyFrame s)
    (durationMsec s) (repeatMsec s) (lastFrame s) (minX s) (minY s)
    (_colors s) (inputBuffer s) (process s) (history s) .
Definition set_readAnyFrame (v : bool) (s : AnimScript) : AnimScript :=
  mkAnimScript (_info s) (_path s) (_map s) (_keys s) (_paramValues s)
    (initialized s) (stopped s) (firstFrame s) (readFrame s) v
    (durationMsec s) (repeatMsec s) (lastFrame s) (minX s) (minY s)
    (_colors s) (inputBuffer s) (process s) (history s) .
Definition set_durationMsec (v : Z) (s : AnimScript) : AnimScript :=
  mkAnimScript (_info s) (_path s) (_map s) (_keys s) (_paramValues s)
    (initialized s) (stopped s) (firstFrame s) (readFrame s) (readAnyFrame s)
    v (repeatMsec s) (lastFrame s) (minX s) (minY s) (_colors s)
    (inputBuffer s) (process s) (history s) .
Definition set_repeatMsec (v : Z) (s : AnimScript) : AnimScript :=
  mkAnimScript (_info s) (_path s) (_map s) (_keys s) (_paramValues s)
    (initialized s) (stopped s) (firstFrame s) (readFrame s) (readAnyFrame s)
    (durationMsec s) v (lastFrame s) (minX s) (minY s) (_colors s)
    (inputBuffer s) (process s) (history s) .
Definition set_lastFrame (v : Z) (s : AnimScript) : AnimScript :=
  mkAnimScript (_info s) (_path s) (_map s) (_keys s) (_paramValues s)
    (initialized s) (stopped s) (firstFrame s) (readFrame s) (readAnyFrame s)
    (durationMsec s) (repeatMsec s) v (minX s) (minY s) (_colors s)
    (inputBuffer s) (process s) (history s) .
Definition set_minX (v : Z) (s : AnimScript) : AnimScript :=
  mkAnimScript (_info s) (_path s) (_map s) (_keys s) (_paramValues s)
    (initialized s) (stopped s) (firstFrame s) (readFrame s) (readAnyFrame s)
    (durationMsec s) (repeatMsec s) (lastFrame s) v (minY s) (_colors s)
    (inputBuffer s) (process s) (history s) .
Definition set_minY (v : Z) (s : AnimScript) : AnimScript :=
  mkAnimScript (_info s) (_path s) (_map s) (_keys s) (_paramValues s)
    (initialized s) (stopped s) (firstFrame s) (readFrame s) (readAnyFrame s)
    (durationMsec s) (repeatMsec s) (lastFrame s) (minX s) v (_colors s)
    (inputBuffer s) (process s) (history s) .
Definition set_colors (v : gmap string Z) (s : AnimScript) : AnimScript :=
  mkAnimScript (_info s) (_path s) (_map s) (_keys s) (_paramValues s)
    (initialized s) (stopped s) (firstFrame s) (readFrame s) (readAnyFrame s)
    (durationMsec s) (repeatMsec s) (lastFrame s) (minX s) (minY s) v
    (inputBuffer s) (process s) (history s) .
Definition set_inputBuffer (v : list string) (s : AnimScript) : AnimScript :=
  mkAnimScript (_info s) (_path s) (_map s) (_keys s) (_paramValues s)
    (initialized s) (stopped s) (firstFrame s) (readFrame s) (readAnyFrame s)
    (durationMsec s) (repeatMsec s) (lastFrame s) (minX s) (minY s)
    (_colors s) v (process s) (history s) .
Definition set_process (v : option Child) (s : AnimScript) : AnimScript :=
  mkAnimScript (_info s) (_path s) (_map s) (_keys s) (_paramValues s)
    (initialized s) (stopped s) (firstFrame s) (readFrame s) (readAnyFrame s)
    (durationMsec s) (repeatMsec s) (lastFrame s) (minX s) (minY s)
    (_colors s) (inputBuffer s) v (history s) .
Definition set_history (v : list Event) (s : AnimScript) : AnimScript :=
  mkAnimScript (_info s) (_path s) (_map s) (_keys s) (_paramValues s)
    (initialized s) (stopped s) (firstFrame s) (readFrame s) (readAnyFrame s)
    (durationMsec s) (repeatMsec s) (lastFrame s) (minX s) (minY s)
    (_colors s) (inputBuffer s) (process s) v.

(** Operations on an instance: they update the object, or fail ([None])
    where the C++ code would dereference the null [process] pointer. *)
Definition Proc := AnimScript -> option AnimScript.

Definition andThen (p q : Proc) : Proc :=
  fun s => match p s with Some s' => q s' | None => None end.

Definition pure (f : AnimScript -> AnimScript) : Proc := fun s => Some (f s).

Definition skip : Proc := fun s => Some s.

Notation "p >> q" := (andThen p q) (at level 61, left associativity).

Definition hasProcess (s : AnimScript) : bool :=
  match process s with Some _ => true | None => false end.

(** [process->write(c)]. *)
Definition write (c : Cmd) : Proc := fun s =>
  match process s with
  | Some ch =>
      Some (set_process
              (Some {| childOutput := childOutput ch;
                       childInput := childInput ch ++ [c] |}) s)
  | None => None
  end.

Fixpoint writeAll (cs : list Cmd) : Proc :=
  match cs with
  | [] => skip
  | c :: cs' => write c >> writeAll cs'
  end.

(** Ghost: appends an event to the history. *)
Definition note (e : Event) (s : AnimScript) : AnimScript :=
  set_history (history s ++ [e]) s.

(** ** The catalog: [load], [scan], [list] *)

(** The Qt text routines that the engine calls. *)
Class Qt := {
  (** [QUrl::fromPercentEncoding] applied to a Latin-1 byte string. *)
  fromPercentEncoding : string -> string;
  (** [QUuid(const QString&)]; malformed text gives the null UUID. *)
  uuidFromString : string -> QUuid;
  (** [QUuid::toString()]. *)
  uuidToString : QUuid -> string;
  (** [QString::toDouble()]: a finite number, an infinity or NaN. *)
  stringToDouble : string -> double;
  (** [QString::toUInt(0, 16)]. *)
  stringToUInt16 : string -> Z
}.

(** The reference routines. *)
Definition qtRef : Qt :=
  {| fromPercentEncoding := QtRef.fromPercentEncoding;
     uuidFromString := QtRef.uuidFromString;
     uuidToString := QtRef.uuidToString;
     stringToDouble := QtRef.stringToDouble;
     stringToUInt16 := QtRef.stringToUInt16 |}.

Section Engine.

Context {qt : Qt}.

(** [QVariant::toDouble()]. *)
Definition toDouble (v : QVariant) : double :=
  match v with
  | VInvalid => 0
  | VBool b => if b then 1 else 0
  | VInt z => inject_Z z
  | VDouble d => d
  | VString s => stringToDouble s
  end.

Definition urlParam (param : string) : string :=
  QString.trimmed (fromPercentEncoding (QString.trimmed param)).

(** The outcome of running [<path> --ckb-info] for at most one second:
    whether the process is still running after the wait, and the lines it
    wrote, each as [readLine] returns it (with its line terminator). *)
Record InfoProcess := {
  stillRunning : bool;
  infoLines : list string
}.

(** The variables of the read loop of [load]. *)
Record LoadState := {
  ls_info : Info.t;
  defaultDuration : double
}.

Definition onInfo (f : Info.t -> Info.t) (st : LoadState) : LoadState :=
  {| ls_info := f (ls_info st); defaultDuration := defaultDuration st |}.

Definition paramType (sType : string) : option Param.Type_ :=
  if String.eqb sType "long" then Some Param.LONG
  else if String.eqb sType "double" then Some Param.DOUBLE
  else if String.eqb sType "bool" then Some Param.BOOL
  else if String.eqb sType "rgb" then Some Param.RGB
  else if String.eqb sType "argb" then Some Param.ARGB
  else if String.eqb sType "gradient" then Some Param.GRADIENT
  else if String.eqb sType "agradient" then Some Param.AGRADIENT
  else if String.eqb sType "angle" then Some Param.ANGLE
  else if String.eqb sType "string" then Some Param.STRING
  else if String.eqb sType "label" then Some Param.LABEL
  else None.

(** The names that a script may not declare ([load], line 176). *)
Definition isSynthesized (name : string) : bool :=
  String.eqb name "delay" || String.eqb name "kpdelay"
  || String.eqb name "repeat" || String.eqb name "kprepeat"
  || String.eqb name "stop" || String.eqb name "kpstop"
  || String.eqb name "kprelease".

(** The branch [param == "param"] of the read loop; returning [st] is the
    source's [continue]. *)
Definition loadParam (components0 : list string) (st : LoadState) : LoadState :=
  if (length components0 <? 3)%nat then st
  else
    let components := QString.padTo 8 components0 in
    match paramType (QString.toLower (QString.at_ components 1)) with
    | None => st
    | Some type =>
        let name := QString.toLower (QString.at_ components 2) in
        if hasParam (ls_info st) name then st
        else
          let prefix := urlParam (QString.at_ components 3) in
          let postfix := urlParam (QString.at_ components 4) in
          let def := VString (urlParam (QString.at_ components 5)) in
          let minimum := VString (urlParam (QString.at_ components 6)) in
          let maximum := VString (urlParam (QString.at_ components 7)) in
          if (String.eqb name "trigger" || String.eqb name "kptrigger")
             && negb (Param.Type_eqb type Param.BOOL)
          then st
          else if String.eqb name "duration" then
            let value := toDouble def in
            if Info.absoluteTime (ls_info st)
               || negb (Param.Type_eqb type Param.DOUBLE)
               || dlt value (1 # 10) || dlt ONE_DAY value
            then st
            else
              {| ls_info :=
                   Info.append
                     (Param.mk type name prefix postfix def
                               (VDouble (1 # 10)) (VDouble ONE_DAY))
                     (ls_info st);
                 defaultDuration := value |}
          else if isSynthesized name then st
          else
            onInfo (Info.append
                      (Param.mk type name prefix postfix def minimum maximum)) st
    end.

(** One iteration of the read loop on the line just read. *)
Definition loadLine (st : LoadState) (line0 : string) : LoadState :=
  let line := QString.trimmed line0 in
  let components := QString.split line in
  if (length components <? 2)%nat then st
  else
    let param := QString.trimmed (QString.at_ components 0) in
    let arg := QString.at_ components 1 in
    if String.eqb param "guid" then
      onInfo (Info.set_guid (uuidFromString (urlParam arg))) st
    else if String.eqb param "name" then onInfo (Info.set_name (urlParam arg)) st
    else if String.eqb param "version" then onInfo (Info.set_version (urlParam arg)) st
    else if String.eqb param "year" then onInfo (Info.set_year (urlParam arg)) st
    else if String.eqb param "author" then onInfo (Info.set_author (urlParam arg)) st
    else if String.eqb param "license" then onInfo (Info.set_license (urlParam arg)) st
    else if String.eqb param "description" then
      onInfo (Info.set_description (urlParam arg)) st
    else if String.eqb param "kpmode" then
      onInfo (Info.set_kpMode
                (if String.eqb arg "position" then KP_POSITION
                 else if String.eqb arg "name" then KP_NAME else KP_NONE)) st
    else if String.eqb param "time" then
      if dlt 0 (defaultDuration st) then st
      else onInfo (Info.set_absoluteTime (String.eqb arg "absolute")) st
    else if String.eqb param "repeat" then
      onInfo (Info.set_repeat (String.eqb arg "on")) st
    else if String.eqb param "preempt" then
      onInfo (Info.set_preempt (String.eqb arg "on")) st
    else if String.eqb param "parammode" then
      onInfo (Info.set_liveParams (String.eqb arg "live")) st
    else if String.eqb param "param" then loadParam components st
    else st.

(** [while((line = infoProcess.readLine()) != "")]: the loop ends at the
    first empty read, which is the end of the output. *)
Fixpoint readInfo (st : LoadState) (lines : list string) : LoadState :=
  match lines with
  | [] => st
  | line :: rest =>
      if String.eqb line "" then st else readInfo (loadLine st line) rest
  end.

Definition appendUnless (present : bool) (p : Param.t) (i : Info.t) : Info.t :=
  if present then i else Info.append p i.

(** The value of [defaultDuration] after line 205: 1.0 when the loop left
    it negative. *)
Definition effectiveDefaultDuration (st : LoadState) : double :=
  if dlt (defaultDuration st) 0 then 1%Q else defaultDuration st.

Definition triggerParam : Param.t :=
  Param.mk Param.BOOL "trigger" "" "" (VBool true) (VInt 0) (VInt 0).
Definition kptriggerParam : Param.t :=
  Param.mk Param.BOOL "kptrigger" "" "" (VBool false) (VInt 0) (VInt 0).
Definition delayParam : Param.t :=
  Param.mk Param.DOUBLE "delay" "" "" (VDouble 0) (VDouble 0) (VDouble ONE_DAY).
Definition kpdelayParam : Param.t :=
  Param.mk Param.DOUBLE "kpdelay" "" "" (VDouble 0) (VDouble 0) (VDouble ONE_DAY).
Definition kpreleaseParam : Param.t :=
  Param.mk Param.BOOL "kprelease" "" "" (VBool false) (VInt 0) (VInt 3).
(** A [Double] parameter over [0.1, ONE_DAY]: the injected [duration],
    [repeat], [kprepeat] and the [stop], [kpstop] of the mode without
    repeats. *)
Definition secondsParam (name : string) (def : double) : Param.t :=
  Param.mk Param.DOUBLE name "" "" (VDouble def) (VDouble (1 # 10)) (VDouble ONE_DAY).
(** The [Long] parameters [stop] and [kpstop] of the mode with repeats. *)
Definition countParam (name : string) (def : Z) : Param.t :=
  Param.mk Param.LONG name "" "" (VInt def) (VInt 0) (VInt 1000).

(** "Add timing parameters": the part of [load] after the required fields
    were found present. *)
Definition addTimingParams (st : LoadState) : Info.t :=
  let i := ls_info st in
  let i := appendUnless (hasParam i "trigger") triggerParam i in
  let i := appendUnless (hasParam i "kptrigger") kptriggerParam i in
  let i := if Info.absoluteTime i || negb (Info.repeat i)
           then Info.set_preempt false i else i in
  let i := Info.append delayParam i in
  let i := Info.append kpdelayParam i in
  let i := Info.append kpreleaseParam i in
  let i := if dlt (defaultDuration st) 0 && negb (Info.absoluteTime i)
           then Info.append (secondsParam "duration" (effectiveDefaultDuration st)) i
           else i in
  if Info.repeat i then
    let i := Info.append (secondsParam "repeat" (effectiveDefaultDuration st)) i in
    let i := Info.append (secondsParam "kprepeat" (effectiveDefaultDuration st)) i in
    let i := Info.append (countParam "stop" (-1)) i in
    Info.append (countParam "kpstop" 0) i
  else
    let i := Info.append (secondsParam "stop" (-1)) i in
    Info.append (secondsParam "kpstop" (-1)) i.

(** "Make sure the required parameters are filled out". *)
Definition requiredMissing (i : Info.t) : bool :=
  N.eqb (Info.guid i) 0 || String.eqb (Info.name i) ""
  || String.eqb (Info.version i) "" || String.eqb (Info.year i) ""
  || String.eqb (Info.author i) "" || String.eqb (Info.license i) "".

(** The state of the read loop when it is entered. *)
Definition loadStart (i : Info.t) : LoadState :=
  {| ls_info :=
       Info.set_repeat true
         (Info.set_liveParams false
            (Info.set_preempt false
               (Info.set_absoluteTime false (Info.set_kpMode KP_NONE i))));
     defaultDuration := -1 |}.

(** [AnimScript::load]: the returned flag and the [_info] it leaves. *)
Definition load (p : InfoProcess) (i : Info.t) : bool * Info.t :=
  if stillRunning p then (false, i)
  else
    let st := readInfo (loadStart i) (infoLines p) in
    if requiredMissing (ls_info st) then (false, ls_info st)
    else (true, addTimingParams st).

(** *** [scan] *)

(** [new AnimScript(qApp, path)].  The constructor sets [_path],
    [initialized] and [process]; the other members are indeterminate in C++
    and are given fixed values. *)
Definition newAnimScript (path : string) : AnimScript :=
  mkAnimScript Info.empty path (fun _ => None) [] [] false false false false
    false 0 0 0 0 0 ∅ [] None [].

(** One iteration of the second loop of [scan]: [file] is the path of an
    executable with the outcome of its info run. *)
Definition scanFile (scripts : gmap QUuid AnimScript)
    (file : string * InfoProcess) : gmap QUuid AnimScript :=
  let script := newAnimScript (fst file) in
  let '(ok, info) := load (snd file) (_info script) in
  let script := set_info info script in
  match ok, scripts !! Info.guid info with
  | true, None => <[Info.guid info := script]> scripts
  | _, _ => scripts
  end.

(** [AnimScript::scan]: the registry [scripts] is emptied, then filled. *)
Definition scan (dir : list (string * InfoProcess)) : gmap QUuid AnimScript :=
  fold_left scanFile dir ∅.

(** *** [list] *)

(** An [AnimScript*] into the registry is the key of the object. *)
Definition nameOf (scripts : gmap QUuid AnimScript) (p : QUuid) : string :=
  match scripts !! p with
  | Some script => Info.name (_info script)
  | None => ""
  end.

(** [p->_info.name += " " + p->guid().toString().toUpper()]. *)
Definition appendGuid (p : QUuid) (scripts : gmap QUuid AnimScript)
  : gmap QUuid AnimScript :=
  alter (fun script =>
           set_info
             (Info.set_name
                (Info.name (_info script) +:+ " "
                 +:+ QString.toUpper (uuidToString (Info.guid (_info script))))
                (_info script))
             script) p scripts.

(** The body of the loop of [list] for the object [script]. *)
Definition listVisit (st : gmap QUuid AnimScript * list (string * QUuid))
    (script : QUuid) : gmap QUuid AnimScript * list (string * QUuid) :=
  let '(scripts, result) := st in
  let name := nameOf scripts script in
  let scripts :=
    match QMap.lookup name result with
    | Some last => appendGuid script (appendGuid last scripts)
    | None => scripts
    end in
  (scripts, QMap.insert (nameOf scripts script) script result).

(** [list] when [scripts.values()] enumerates the objects in the order
    [values]: the registry with the names as [list] leaves them, and the
    returned list. *)
Definition listFrom (values : list QUuid) (scripts : gmap QUuid AnimScript)
  : gmap QUuid AnimScript * list QUuid :=
  let '(scripts', result) := fold_left listVisit values (scripts, []) in
  (scripts', QMap.values result).

(** [AnimScript::list], with the order of the [gmap] for that of the hash. *)
Definition listScripts (scripts : gmap QUuid AnimScript)
  : gmap QUuid AnimScript * list QUuid :=
  listFrom (map fst (map_to_list scripts)) scripts.

(** The display names of a returned list. *)
Definition displayNames (r : gmap QUuid AnimScript * list QUuid) : list string :=
  map (nameOf (fst r)) (snd r).

(** *** Instances: [init], [setDuration], [parameters], [printParams] *)

Definition stop (s : AnimScript) : AnimScript :=
  set_process None (set_colors ∅ s).

(** [_paramValues.value(key)]. *)
Definition paramValue (s : AnimScript) (key : string) : QVariant :=
  match QMap.lookup key (_paramValues s) with
  | Some v => v
  | None => VInvalid
  end.

Definition setDuration (s : AnimScript) : AnimScript :=
  if Info.absoluteTime (_info s) then
    set_repeatMsec 0 (set_durationMsec 1000 s)
  else
    let d := toMsec (toDouble (paramValue s "duration")) in
    let s := set_durationMsec (if (d <=? 0)%Z then (-1)%Z else d) s in
    set_repeatMsec (toMsec (toDouble (paramValue s "repeat"))) s.

Definition init (map : KeyMap) (keys : list string)
    (paramValues : list (string * QVariant)) (s : AnimScript) : AnimScript :=
  if String.eqb (_path s) "" then s
  else
    let s := stop s in
    let s := set_paramValues paramValues (set_keys keys (set_map map s)) in
    let s := setDuration s in
    set_initialized true (set_firstFrame false (set_stopped false s)).

Definition printParams : Proc := fun s =>
  (write BeginParams
   >> writeAll (List.map (fun kv => ParamLine (fst kv) (snd kv)) (_paramValues s))
   >> write EndParams) s.

Definition parameters (paramValues : list (string * QVariant)) : Proc := fun s =>
  if negb (initialized s) || negb (hasProcess s)
     || negb (Info.liveParams (_info s))
  then Some s
  else (pure (set_paramValues paramValues) >> pure setDuration >> printParams) s.

(** *** [nextFrame] *)

(** [while(delta > 1.){ process->write("frame 1\n"); delta--; }], on a
    bound [fuel] of iterations.  [delta] is the exact quotient, so that
    every iteration takes 1 from it; in binary64 this holds below 2^53. *)
Fixpoint skipDurations (fuel : nat) (delta : Q) (s : AnimScript)
  : option (Q * AnimScript) :=
  if Qltb 1 delta then
    match fuel with
    | O => None
    | S fuel' =>
        match write (Frame 1) s with
        | Some s' => skipDurations fuel' (delta - 1)%Q s'
        | None => None
        end
    end
  else Some (delta, s).

Definition nextFrame (timestamp : Z) : Proc := fun s =>
  let s := note (Advanced timestamp) s in
  let s := if (timestamp <=? lastFrame s)%Z then set_lastFrame timestamp s else s in
  let delta : Q :=
    (inject_Z (wrap64 (timestamp - lastFrame s)) / inject_Z (durationMsec s))%Q in
  match (if Info.absoluteTime (_info s) then Some (delta, s)
         else skipDurations (Z.to_nat (Qceiling delta)) delta s) with
  | None => None
  | Some (delta, s) =>
      let delta : Q := if Qltb delta 0 then 0%Q else delta in
      let s := set_lastFrame timestamp s in
      (write (Frame (Qred delta)) >> pure (set_firstFrame true)) s
  end.

(** *** [start], [retrigger], [keypress] *)

(** The first loop of [start] at [key]: [acc] is [keysCopy], [minX], [minY]. *)
Definition boundKey (map : KeyMap) (acc : list string * Z * Z) (key : string)
  : list string * Z * Z :=
  let '(keysCopy, minX, minY) := acc in
  match map key with
  | None =>
      (List.filter (fun k => negb (String.eqb k key)) keysCopy, minX, minY)
  | Some pos =>
      (keysCopy,
       if (KeyPos.x pos <? minX)%Z then KeyPos.x pos else minX,
       if (KeyPos.y pos <? minY)%Z then KeyPos.y pos else minY)
  end.

(** The second loop of [start] at [key]. *)
Definition writeKey (key : string) : Proc := fun s =>
  match _map s key with
  | Some pos =>
      write (KeymapKey key (KeyPos.x pos - minX s) (KeyPos.y pos - minY s)) s
  | None => None
  end.

Fixpoint writeKeys (keys : list string) : Proc :=
  match keys with
  | [] => skip
  | key :: keys' => writeKey key >> writeKeys keys'
  end.

Definition start (timestamp : Z) : Proc := fun s =>
  if negb (initialized s) then Some s
  else
    let s := stop s in
    let s := set_readAnyFrame false
               (set_readFrame false (set_firstFrame false (set_stopped false s))) in
    let s := set_process (Some {| childOutput := []; childInput := [] |}) s in
    let '(keysCopy, mx, my) :=
      fold_left (boundKey (_map s)) (_keys s) (_keys s, INT_MAX, INT_MAX) in
    let s := set_minY my (set_minX mx s) in
    (write BeginKeymap
     >> write (Keycount (length keysCopy))
     >> writeKeys keysCopy
     >> write EndKeymap
     >> printParams
     >> write BeginRun
     >> pure (set_lastFrame timestamp)) s.

(** [if(!process) start(timestamp);] *)
Definition ensureStarted (timestamp : Z) : Proc := fun s =>
  if hasProcess s then Some s else start timestamp s.

(** Modelled from the spec: the default value of the argument
    [allowPreempt] of [retrigger] is given in animscript.h, which is not
    among the sources.  "this recursion is bounded to one extra level by the
    allowPreempt=false argument on the synthetic call". *)
Definition allowPreemptDefault : bool := false.

(** [AnimScript::retrigger], with a bound [fuel] on the depth of the
    recursion. *)
Fixpoint retriggerRec (fuel : nat) (timestamp : Z) (allowPreempt : bool) : Proc :=
  fun s =>
  match fuel with
  | O => None
  | S fuel' =>
      if negb (initialized s) then Some s
      else
        ((fun s =>
            if allowPreempt && Info.preempt (_info s) && (0 <? repeatMsec s)%Z
            then retriggerRec fuel' (wrap64 (timestamp - repeatMsec s))
                   allowPreemptDefault s
            else Some s)
         >> ensureStarted timestamp
         >> nextFrame timestamp
         >> write Start) s
  end.

Definition retrigger (timestamp : Z) (allowPreempt : bool) : Proc :=
  retriggerRec 2 timestamp allowPreempt.

Definition keypress (key : string) (pressed : bool) (timestamp : Z) : Proc :=
  fun s =>
  if negb (initialized s) then Some s
  else
    (ensureStarted timestamp
     >> (fun s =>
           match Info.kpMode (_info s) with
           | KP_NONE =>
               if pressed then retrigger timestamp allowPreemptDefault s
               else Some s
           | KP_NAME => (nextFrame timestamp >> write (KeyByName key pressed)) s
           | KP_POSITION =>
               match _map s key with
               | None => Some s
               | Some kp =>
                   (nextFrame timestamp
                    >> write (KeyByPos (KeyPos.x kp - minX s)
                                       (KeyPos.y kp - minY s) pressed)) s
               end
           end)) s.

(** *** [readProcess] and [frame] *)

(** The loop over [inputBuffer] that processes a complete frame. *)
Definition readColor (colors : gmap string Z) (input : string) : gmap string Z :=
  let split := QString.split input in
  if negb (length split =? 3)%nat
     || negb (String.eqb (QString.at_ split 0) "argb")
  then colors
  else <[QString.at_ split 1 := stringToUInt16 (QString.at_ split 2)]> colors.

(** The loop of [readProcess] over the lines that can be read: the lines
    left unread when it ends, and the object. *)
Fixpoint readLines (lines : list string) (s : AnimScript)
  : list string * AnimScript :=
  match lines with
  | [] => ([], s)
  | raw :: rest =>
      let line := QString.trimmed raw in
      if (length (inputBuffer s) =? 0)%nat && negb (String.eqb line "begin frame")
      then
        if String.eqb line "end run" then (rest, set_stopped true s)
        else readLines rest s
      else if String.eqb line "end frame" then
        let s := set_colors (fold_left readColor (inputBuffer s) (_colors s)) s in
        let s := set_inputBuffer [] s in
        let s := set_readAnyFrame true (set_readFrame true s) in
        readLines rest (note FrameRead s)
      else readLines rest (set_inputBuffer (inputBuffer s ++ [line]) s)
  end.

Definition readProcess : Proc := fun s =>
  match process s with
  | None => None
  | Some ch =>
      let '(rest, s') := readLines (childOutput ch) s in
      Some (set_process
              (Some {| childOutput := rest; childInput := childInput ch |}) s')
  end.

(** The child writes [lines]: they become readable and the [readyRead]
    signal runs [readProcess].  The signal is connected only while the
    object holds the process. *)
Definition childWrites (lines : list string) : Proc := fun s =>
  match process s with
  | None => Some s
  | Some ch =>
      readProcess
        (set_process
           (Some {| childOutput := childOutput ch ++ lines;
                    childInput := childInput ch |}) s)
  end.

Definition frame (timestamp : Z) : Proc := fun s =>
  if negb (initialized s) || stopped s then Some s
  else
    (ensureStarted timestamp
     >> (fun s =>
           if readFrame s || negb (firstFrame s) then nextFrame timestamp s
           else Some s)
     >> pure (set_readFrame false)) s.

(** ** Notions of the statements and closed forms *)

(** A change of [_info] that leaves the time mode and the parameters. *)
Definition keepsTiming (f : Info.t -> Info.t) : Prop :=
  forall i, Info.absoluteTime (f i) = Info.absoluteTime i
            /\ Info.params (f i) = Info.params i.

(** The invariant of the read loop of [load] on a fresh object: declared
    names are lower case and none is synthesized; [defaultDuration] is still
    -1 while no [duration] was accepted; an accepted [duration] is a
    [Double] over [0.1, ONE_DAY] whose default is [defaultDuration]; this
    default is neither below 0.1 nor above [ONE_DAY], and it is NaN if the
    time mode is absolute. *)
Definition loadInv (st : LoadState) : Prop :=
  (forall q, In q (Info.params (ls_info st)) ->
             QString.toLower (Param.name q) = Param.name q
             /\ isSynthesized (Param.name q) = false)
  /\ (hasParam (ls_info st) "duration" = false -> defaultDuration st = (-1)%Q)
  /\ (forall q, In q (Info.params (ls_info st)) -> Param.name q = "duration" ->
                Param.type q = Param.DOUBLE
                /\ Param.minimum q = VDouble (1 # 10)
                /\ Param.maximum q = VDouble ONE_DAY
                /\ toDouble (Param.defaultValue q) = defaultDuration st)
  /\ (hasParam (ls_info st) "duration" = true ->
      dlt (defaultDuration st) (1 # 10) = false
      /\ dlt ONE_DAY (defaultDuration st) = false
      /\ (Info.absoluteTime (ls_info st) = true -> defaultDuration st = DNaN)).

(** The parameters that [addTimingParams] appends, in order. *)
Definition timingParams (st : LoadState) : list Param.t :=
  let i := ls_info st in
  (if hasParam i "trigger" then [] else [triggerParam])
  ++ (if hasParam i "kptrigger" then [] else [kptriggerParam])
  ++ [delayParam; kpdelayParam; kpreleaseParam]
  ++ (if dlt (defaultDuration st) 0 && negb (Info.absoluteTime i)
      then [secondsParam "duration" (effectiveDefaultDuration st)] else [])
  ++ (if Info.repeat i
      then [secondsParam "repeat" (effectiveDefaultDuration st);
            secondsParam "kprepeat" (effectiveDefaultDuration st);
            countParam "stop" (-1); countParam "kpstop" 0]
      else [secondsParam "stop" (-1); secondsParam "kpstop" (-1)]).

(** The state in which the read loop of [load] ends on a fresh object. *)
Definition parsed (p : InfoProcess) : LoadState :=
  readInfo (loadStart Info.empty) (infoLines p).

(** The name declared by a [param] line with the given components. *)
Definition declaredName (components : list string) : string :=
  QString.toLower (QString.at_ (QString.padTo 8 components) 2).

Definition declaredType (components : list string) : option Param.Type_ :=
  paramType (QString.toLower (QString.at_ (QString.padTo 8 components) 1)).

Definition declaredDefault (components : list string) : QVariant :=
  VString (urlParam (QString.at_ (QString.padTo 8 components) 5)).

(** The command word of a line of the info output. *)
Definition commandOf (line : string) : string :=
  QString.trimmed (QString.at_ (QString.split (QString.trimmed line)) 0).

(** A candidate of a scan: what [load] returns for it, its descriptor, its
    identity, and the object that [scan] builds for it. *)
Definition valid (file : string * InfoProcess) : bool :=
  fst (load (snd file) Info.empty).

Definition infoOf (file : string * InfoProcess) : Info.t :=
  snd (load (snd file) Info.empty).

Definition guidOf (file : string * InfoProcess) : QUuid :=
  Info.guid (infoOf file).

Definition scriptOf (file : string * InfoProcess) : AnimScript :=
  set_info (infoOf file) (newAnimScript (fst file)).

(** The first candidate of [dir] that is valid and has the identity [g]. *)
Definition firstValid (g : QUuid) (dir : list (string * InfoProcess))
  : option (string * InfoProcess) :=
  List.find (fun file => valid file && N.eqb (guidOf file) g) dir.

(** The object after [cs] were written to its child. *)
Definition wrote (cs : list Cmd) (s : AnimScript) : AnimScript :=
  match process s with
  | Some ch =>
      set_process
        (Some {| childOutput := childOutput ch; childInput := childInput ch ++ cs |}) s
  | None => s
  end.

(** What was written to the current child. *)
Definition sent (s : AnimScript) : list Cmd :=
  match process s with
  | Some ch => childInput ch
  | None => []
  end.

(** The number of iterations of the loop of [nextFrame] from [delta]. *)
Definition skipCount (delta : Q) : nat := Z.to_nat (Qceiling delta - 1).


(** [delta] as [nextFrame] computes it at line 408. *)
Definition elapsed (timestamp : Z) (s : AnimScript) : Q :=
  (inject_Z
     (wrap64 (timestamp
              - (if (timestamp <=? lastFrame s)%Z then timestamp else lastFrame s)))
   / inject_Z (durationMsec s))%Q.

Definition clamp (delta : Q) : Q := if Qltb delta 0 then 0%Q else delta.

(** The commands of one call of [nextFrame], in closed form. *)
Definition frameCommands (timestamp : Z) (s : AnimScript) : list Cmd :=
  let delta := elapsed timestamp s in
  let n := if Info.absoluteTime (_info s) then O else skipCount delta in
  List.repeat (Frame 1) n
  ++ [Frame (Qred (clamp (delta - inject_Z (Z.of_nat n))))].


(** The commands that [printParams] writes. *)
Definition paramBlock (s : AnimScript) : list Cmd :=
  [BeginParams]
  ++ List.map (fun kv => ParamLine (fst kv) (snd kv)) (_paramValues s)
  ++ [EndParams].

(** The lines of the keymap block for the keys [keys]. *)
Definition keyLines (s : AnimScript) (keys : list string) : list Cmd :=
  List.flat_map
    (fun key =>
       match _map s key with
       | Some pos =>
           [KeymapKey key (KeyPos.x pos - minX s) (KeyPos.y pos - minY s)]
       | None => []
       end) keys.

(** The object as [start] sets it up before it writes to the new child. *)
Definition startSetup (s : AnimScript) : AnimScript :=
  let s := stop s in
  let s := set_readAnyFrame false
             (set_readFrame false (set_firstFrame false (set_stopped false s))) in
  let s := set_process (Some {| childOutput := []; childInput := [] |}) s in
  let '(keysCopy, mx, my) :=
    fold_left (boundKey (_map s)) (_keys s) (_keys s, INT_MAX, INT_MAX) in
  set_minY my (set_minX mx s).

(** The keys that [start] keeps. *)
Definition startKeys (s : AnimScript) : list string :=
  fst (fst (fold_left (boundKey (_map s)) (_keys s) (_keys s, INT_MAX, INT_MAX))).

(** Everything that [start] writes to the new child. *)
Definition startCommands (s : AnimScript) : list Cmd :=
  [BeginKeymap; Keycount (length (startKeys s))]
  ++ keyLines (startSetup s) (startKeys s)
  ++ [EndKeymap] ++ paramBlock s ++ [BeginRun].

(** The object after [start], [if(!process) start(...)] and [nextFrame], in
    closed form. *)
Definition started (timestamp : Z) (s : AnimScript) : AnimScript :=
  set_lastFrame timestamp (wrote (startCommands s) (startSetup s)).

Definition ensured (timestamp : Z) (s : AnimScript) : AnimScript :=
  if hasProcess s then s else started timestamp s.

Definition afterFrame (timestamp : Z) (s : AnimScript) : AnimScript :=
  set_firstFrame true
    (wrote (frameCommands timestamp s)
           (set_lastFrame timestamp (note (Advanced timestamp) s))).

(** The calls that drive an instance in a run of frames: a tick of the
    scheduler, or output of the child becoming readable. *)
Inductive Call :=
| CallFrame (timestamp : Z)
| CallChildWrites (lines : list string).

Definition call (c : Call) : Proc :=
  match c with
  | CallFrame timestamp => frame timestamp
  | CallChildWrites lines => childWrites lines
  end.

Fixpoint runCalls (calls : list Call) : Proc :=
  match calls with
  | [] => skip
  | c :: calls' => call c >> runCalls calls'
  end.

(** A history in which no advance follows another one without a frame read
    in between; [pending] tells whether an advance was the last event
    before the history. *)
Fixpoint throttledFrom (pending : bool) (h : list Event) : Prop :=
  match h with
  | [] => True
  | Advanced _ :: h' => pending = false /\ throttledFrom true h'
  | FrameRead :: h' => throttledFrom false h'
  end.

(** An object on which [frame] does not advance before a frame is read. *)
Definition blocked (s : AnimScript) : Prop :=
  hasProcess s = true /\ firstFrame s = true /\ readFrame s = false.

(** ** Sample data *)

Definition LF : string := String (ascii_of_nat 10) EmptyString.

(** The output of an info run: a descriptor with the given guid text and a
    [duration] parameter with the given default, followed by [extra]. *)
Definition sampleInfo (guidText durationDefault : string) (extra : list string)
  : InfoProcess :=
  {| stillRunning := false;
     infoLines :=
       List.map (fun l => l +:+ LF)
         (["guid " +:+ guidText; "name Wave"; "version 1.0"; "year 2014";
           "author ckb"; "license GPLv2"; "repeat on";
           "param double duration Duration: s " +:+ durationDefault]
          ++ extra) |}.

Definition guidA : string := "{0a1b2c3d-0000-1111-2222-333344445555}".
Definition guidB : string := "{0a1b2c3d-0000-1111-2222-333344445556}".

(** A directory with two valid scripts of distinct guids and a script whose
    info run does not finish; the same with one more script that has the
    first guid. *)
Definition sampleDir : list (string * InfoProcess) :=
  [("/anim/a", sampleInfo guidA "0.05" []);
   ("/anim/hang", {| stillRunning := true; infoLines := [] |});
   ("/anim/b", sampleInfo guidB "2.5" ["time absolute"])].

Definition sampleDirDup : list (string * InfoProcess) :=
  sampleDir ++ [("/anim/a2", sampleInfo guidA "1" [])].

(** A registry entry with a guid and a display name. *)
Definition sampleScript (g : QUuid) (name : string) : AnimScript :=
  set_info (Info.set_name name (Info.set_guid g Info.empty))
           (newAnimScript "/anim").

(** Two scripts named alike and one name that sorts between the plain and
    the rewritten name; three scripts named alike. *)
Definition sampleRegistry : gmap QUuid AnimScript :=
  <[1%N := sampleScript 1%N "Foo"]>
    (<[2%N := sampleScript 2%N "Foo"]> (<[3%N := sampleScript 3%N "Foo A"]> ∅)).

Definition sampleTriple : gmap QUuid AnimScript :=
  <[1%N := sampleScript 1%N "Foo"]>
    (<[2%N := sampleScript 2%N "Foo"]> (<[3%N := sampleScript 3%N "Foo"]> ∅)).

(** Every order in which a hash of three entries can enumerate them. *)
Definition ordersOfThree : list (list QUuid) :=
  [[1; 2; 3]; [1; 3; 2]; [2; 1; 3]; [2; 3; 1]; [3; 1; 2]; [3; 2; 1]]%N.

Fixpoint ascending (names : list string) : bool :=
  match names with
  | a :: (b :: _) as rest => String.leb a b && ascending rest
  | _ => true
  end.

(** A descriptor in relative time with repeats, preemption and live
    parameters, and values for a duration and a repeat of half a second. *)
Definition sampleLive : Info.t :=
  Info.set_liveParams true
    (Info.set_preempt true (Info.set_repeat true (Info.set_name "Wave" Info.empty))).

Definition sampleValues : list (string * QVariant) :=
  [("duration", VDouble (1 # 2)); ("repeat", VDouble (1 # 2))].

Definition sampleNewValues : list (string * QVariant) :=
  [("duration", VDouble 2); ("repeat", VDouble 1)].

(** The instance after [init] with [sampleValues], before any child was
    started; and the same instance with a child that was sent nothing, a
    duration of one second and [lastFrame] 0. *)
Definition sampleIdle : AnimScript :=
  mkAnimScript sampleLive "/anim/wave" (fun _ => None) [] sampleValues
    true false false false false 500 500 0 0 0 ∅ [] None [].

Definition sampleChild : Child := {| childOutput := []; childInput := [] |}.

Definition sampleRunning : AnimScript :=
  mkAnimScript sampleLive "/anim/wave" (fun _ => None) [] sampleValues
    true false true false false 1000 500 0 0 0 ∅ [] (Some sampleChild) [].

(** ** More notions: descriptors *)

(** The names of the parameters of a descriptor, in order. *)
Definition paramNames (i : Info.t) : list string :=
  List.map Param.name (Info.params i).

(** Whether the strings of a list are pairwise different. *)
Fixpoint distinct (l : list string) : bool :=
  match l with
  | [] => true
  | x :: rest => negb (existsb (String.eqb x) rest) && distinct rest
  end.

(** The command words of the fields that [load] requires. *)
Definition requiredCommands : list string :=
  ["guid"; "name"; "version"; "year"; "author"; "license"].

(** Whether the required field set by the command [c] is still missing. *)
Definition fieldMissing (c : string) (i : Info.t) : bool :=
  if String.eqb c "guid" then N.eqb (Info.guid i) 0
  else if String.eqb c "name" then String.eqb (Info.name i) ""
  else if String.eqb c "version" then String.eqb (Info.version i) ""
  else if String.eqb c "year" then String.eqb (Info.year i) ""
  else if String.eqb c "author" then String.eqb (Info.author i) ""
  else if String.eqb c "license" then String.eqb (Info.license i) ""
  else false.

(** ** [copy] *)

(** [AnimScript(parent, base)]: the copy constructor takes [_info] and
    [_path] from [base] and sets [initialized] and [process]; the other
    members are as in [newAnimScript]. *)
Definition copyOf (base : AnimScript) : AnimScript :=
  set_info (_info base) (newAnimScript (_path base)).

(** [AnimScript::copy]: a new instance of a registered script, or null. *)
Definition copy (scripts : gmap QUuid AnimScript) (id : QUuid)
  : option AnimScript :=
  match scripts !! id with
  | Some base => Some (copyOf base)
  | None => None
  end.

(** A script that asks for preemption and declares [trigger] itself. *)
Definition sampleDeclared : InfoProcess :=
  sampleInfo guidA "2.5" ["preempt on"; "param bool trigger Trigger: x 1"].


(** Scripts whose [duration] has the default [nan]: in relative time, and
    followed by a request for absolute time. *)
Definition sampleNaN : InfoProcess := sampleInfo guidA "nan" [].

Definition sampleNaNAbsolute : InfoProcess :=
  sampleInfo guidB "nan" ["time absolute"].

(** * Properties *)

(** ** Strings and numbers *)

Lemma lowerChar_idem (c : ascii) :
  QString.lowerChar (QString.lowerChar c) = QString.lowerChar c.
Proof. destruct c as [[] [] [] [] [] [] [] []]; reflexivity. Qed.

Lemma toLower_idem (s : string) :
  QString.toLower (QString.toLower s) = QString.toLower s.
Proof.
  unfold QString.toLower.
  induction s as [|c s IH]; simpl; [reflexivity|].
  now rewrite lowerChar_idem, IH.
Qed.

Lemma Qltb_lt (x y : Q) : Qltb x y = true <-> (x < y)%Q.
Proof.
  unfold Qltb. rewrite negb_true_iff.
  split; intros H.
  - apply Qnot_le_lt. intros Hle. apply Qle_bool_iff in Hle. congruence.
  - destruct (Qle_bool y x) eqn:E; [|reflexivity].
    apply Qle_bool_iff in E. exfalso. exact (Qlt_not_le _ _ H E).
Qed.

Lemma Qltb_ge (x y : Q) : Qltb x y = false <-> (y <= x)%Q.
Proof.
  unfold Qltb. rewrite negb_false_iff. apply Qle_bool_iff.
Qed.

(** ** Comparisons of doubles *)

(** A double that is neither below [lo] nor above [hi] is a number
    between them, or it is NaN. *)
Lemma dlt_range (x : double) (lo hi : Q) :
  dlt x lo = false -> dlt hi x = false ->
  x = DNaN \/ exists q, x = DNum q /\ (lo <= q)%Q /\ (q <= hi)%Q.
Proof.
  destruct x as [q|[]|]; cbn; intros Hlo Hhi; try discriminate.
  - right. exists q. split; [reflexivity|]. split; now apply Qltb_ge.
  - now left.
Qed.

Lemma dlt_range_positive (x : double) :
  dlt x (1 # 10) = false -> dlt ONE_DAY x = false ->
  dlt 0 x = false -> x = DNaN.
Proof.
  intros Hlo Hhi Hpos.
  destruct (dlt_range x _ _ Hlo Hhi) as [E | (q & -> & Hq & _)]; [exact E|].
  exfalso. cbn in Hpos. apply Qltb_ge in Hpos.
  apply (Qlt_irrefl 0). apply Qlt_le_trans with (1 # 10); [reflexivity|].
  now apply Qle_trans with q.
Qed.

Lemma dlt_range_negative (x : double) :
  dlt x (1 # 10) = false -> dlt x 0 = false.
Proof.
  destruct x as [q|[]|]; cbn; intros Hlo; try discriminate; try reflexivity.
  apply Qltb_ge. apply Qltb_ge in Hlo.
  apply Qle_trans with (1 # 10); [discriminate|exact Hlo].
Qed.

(** ** [hasParam] *)

Lemma hasParam_true (i : Info.t) (name : string) :
  hasParam i name = true <->
  exists q, In q (Info.params i)
            /\ QString.toLower (Param.name q) = QString.toLower name.
Proof.
  unfold hasParam. rewrite existsb_exists.
  split; intros [q [Hin Hq]]; exists q; split; trivial.
  - now apply String.eqb_eq.
  - now apply String.eqb_eq.
Qed.

Lemma hasParam_false (i : Info.t) (name : string) :
  hasParam i name = false <->
  forall q, In q (Info.params i) ->
            QString.toLower (Param.name q) <> QString.toLower name.
Proof.
  split.
  - intros H q Hin Heq.
    assert (hasParam i name = true) by (apply hasParam_true; eauto).
    congruence.
  - intros H. destruct (hasParam i name) eqn:E; [|reflexivity].
    apply hasParam_true in E as [q [Hin Heq]]. now elim (H q).
Qed.

Lemma params_append (p : Param.t) (i : Info.t) :
  Info.params (Info.append p i) = Info.params i ++ [p].
Proof. reflexivity. Qed.

(** ** The read loop of [load], case by case *)

(** What a [param] line can do: nothing, accept a [duration], or accept a
    parameter of another name that the script may declare. *)
Lemma loadParam_cases (components : list string) (st : LoadState)
    (P : LoadState -> Prop) :
  P st ->
  (forall prefix postfix def,
      Info.absoluteTime (ls_info st) = false ->
      hasParam (ls_info st) "duration" = false ->
      dlt (toDouble def) (1 # 10) = false -> dlt ONE_DAY (toDouble def) = false ->
      P {| ls_info :=
             Info.append
               (Param.mk Param.DOUBLE "duration" prefix postfix def
                         (VDouble (1 # 10)) (VDouble ONE_DAY))
               (ls_info st);
           defaultDuration := toDouble def |}) ->
  (forall type name prefix postfix def minimum maximum,
      name <> "duration" -> isSynthesized name = false ->
      QString.toLower name = name ->
      hasParam (ls_info st) name = false ->
      (name = "trigger" \/ name = "kptrigger" -> type = Param.BOOL) ->
      P (onInfo (Info.append
                   (Param.mk type name prefix postfix def minimum maximum)) st)) ->
  P (loadParam components st).
Proof.
  intros Hst Hdur Hother. unfold loadParam.
  destruct (length components <? 3)%nat; [exact Hst|].
  set (cs := QString.padTo 8 components).
  destruct (paramType _) as [type|]; [|exact Hst].
  set (name := QString.toLower (QString.at_ cs 2)).
  assert (Hlow : QString.toLower name = name) by apply toLower_idem.
  destruct (hasParam (ls_info st) name) eqn:Hhas; [exact Hst|].
  destruct ((String.eqb name "trigger" || String.eqb name "kptrigger")
            && negb (Param.Type_eqb type Param.BOOL)) eqn:Htrig; [exact Hst|].
  destruct (String.eqb name "duration") eqn:Hd.
  - apply String.eqb_eq in Hd.
    destruct (Info.absoluteTime (ls_info st)) eqn:Habs; [exact Hst|].
    destruct (Param.Type_eqb type Param.DOUBLE) eqn:Hty; [|exact Hst].
    cbn [negb orb].
    destruct (dlt _ (1 # 10)) eqn:Hlo; [exact Hst|].
    destruct (dlt ONE_DAY _) eqn:Hhi; [exact Hst|].
    cbn [orb]. rewrite Hd.
    assert (type = Param.DOUBLE) as -> by (destruct type; discriminate || reflexivity).
    apply Hdur; trivial.
    now rewrite <- Hd.
  - apply String.eqb_neq in Hd.
    destruct (isSynthesized name) eqn:Hsyn; [exact Hst|].
    apply Hother; trivial.
    intros Hn.
    assert (E : (String.eqb name "trigger" || String.eqb name "kptrigger") = true).
    { destruct Hn as [-> | ->]; reflexivity. }
    rewrite E in Htrig. simpl in Htrig.
    destruct type; discriminate || reflexivity.
Qed.

Lemma loadLine_cases (st : LoadState) (line : string) (P : LoadState -> Prop) :
  P st ->
  (forall f, keepsTiming f -> P (onInfo f st)) ->
  (forall b, dlt 0 (defaultDuration st) = false ->
             P (onInfo (Info.set_absoluteTime b) st)) ->
  (forall components, P (loadParam components st)) ->
  P (loadLine st line).
Proof.
  intros Hst Hf Habs Hparam. unfold loadLine.
  repeat match goal with
         | |- context [if ?b then _ else _] => destruct b eqn:?
         end;
    try assumption;
    try (apply Hf; intros i; split; reflexivity);
    try (apply Habs; first [assumption | reflexivity]);
    apply Hparam.
Qed.

Lemma hasParam_params (i j : Info.t) (name : string) :
  Info.params i = Info.params j -> hasParam i name = hasParam j name.
Proof. unfold hasParam. now intros ->. Qed.

Lemma hasParam_append (p : Param.t) (i : Info.t) (name : string) :
  hasParam (Info.append p i) name =
  hasParam i name
  || String.eqb (QString.toLower (Param.name p)) (QString.toLower name).
Proof.
  unfold hasParam. rewrite params_append, existsb_app. simpl.
  now rewrite orb_false_r.
Qed.

Lemma loadInv_start (i : Info.t) :
  Info.params i = [] -> loadInv (loadStart i).
Proof.
  intros Hnil. unfold loadInv, loadStart, hasParam. simpl. rewrite Hnil. simpl.
  repeat split; try contradiction; discriminate.
Qed.

Lemma loadInv_keeps (f : Info.t -> Info.t) (st : LoadState) :
  (forall i, Info.params (f i) = Info.params i) ->
  (hasParam (ls_info st) "duration" = true ->
   Info.absoluteTime (f (ls_info st)) = true -> defaultDuration st = DNaN) ->
  loadInv st -> loadInv (onInfo f st).
Proof.
  intros Hpar Habs (I1 & I2 & I3 & I4).
  unfold loadInv, onInfo. simpl.
  rewrite (hasParam_params _ (ls_info st)) by apply Hpar.
  rewrite Hpar.
  repeat split; try (now apply I1); try (now apply I3); auto; try (now apply I4).
Qed.

(** In a goal about a parameter [q] of a list that was just extended:
    [q] is an old parameter, or the new one. *)
Ltac old_or_new H :=
  apply in_app_iff in H as [H | [<- | []]].

Lemma loadInv_param (components : list string) (st : LoadState) :
  loadInv st -> loadInv (loadParam components st).
Proof.
  intros Inv. pose proof Inv as (I1 & I2 & I3 & I4).
  apply loadParam_cases; [exact Inv| |].
  - intros prefix postfix def Habs Hno Hlo Hhi.
    assert (Hfresh : forall q, In q (Info.params (ls_info st)) ->
                               Param.name q <> "duration").
    { intros q Hq Hn. apply hasParam_false with (q := q) in Hno; trivial.
      apply Hno. destruct (I1 q Hq) as [-> _]. now rewrite Hn. }
    unfold loadInv. cbn [ls_info defaultDuration]. rewrite params_append.
    split; [|split; [|split]].
    + intros q Hq. old_or_new Hq; [now apply I1|split; reflexivity].
    + rewrite hasParam_append. simpl Param.name.
      rewrite String.eqb_refl, orb_true_r. discriminate.
    + intros q Hq Hn. old_or_new Hq; [now elim (Hfresh q Hq)|].
      repeat split.
    + intros _. repeat split; trivial. cbn [Info.absoluteTime Info.append
        Info.set_params]. congruence.
  - intros type name prefix postfix def minimum maximum Hnd Hsyn Hlow Hno Htrig.
    assert (Hd : hasParam
                   (Info.append (Param.mk type name prefix postfix def minimum maximum)
                                (ls_info st)) "duration"
                 = hasParam (ls_info st) "duration").
    { rewrite hasParam_append. simpl Param.name. rewrite Hlow.
      change (QString.toLower "duration") with "duration".
      destruct (String.eqb_spec name "duration"); [contradiction|].
      now rewrite orb_false_r. }
    unfold loadInv, onInfo. cbn [ls_info defaultDuration]. rewrite Hd, params_append.
    split; [|split; [|split]]; trivial.
    + intros q Hq. old_or_new Hq; [now apply I1|now split].
    + intros q Hq Hn. old_or_new Hq; [now apply I3|contradiction].
Qed.

Lemma loadInv_line (st : LoadState) (line : string) :
  loadInv st -> loadInv (loadLine st line).
Proof.
  intros Inv. apply loadLine_cases.
  - exact Inv.
  - intros f Hf. apply loadInv_keeps; trivial.
    + intros i. apply Hf.
    + intros Hd. destruct (Hf (ls_info st)) as [-> _]. now apply Inv.
  - intros b Hdd. apply loadInv_keeps; trivial.
    intros Hd _.
    destruct Inv as (_ & _ & _ & I4). destruct (I4 Hd) as (Hlo & Hhi & _).
    now apply dlt_range_positive.
  - intros components. now apply loadInv_param.
Qed.

Lemma loadInv_readInfo (lines : list string) (st : LoadState) :
  loadInv st -> loadInv (readInfo st lines).
Proof.
  revert st. induction lines as [|line rest IH]; intros st Inv; simpl; trivial.
  destruct (String.eqb line ""); trivial.
  apply IH. now apply loadInv_line.
Qed.

(** ** What [addTimingParams] leaves *)

Lemma hasParam_kptrigger_after_trigger (i : Info.t) :
  hasParam (appendUnless (hasParam i "trigger") triggerParam i) "kptrigger"
  = hasParam i "kptrigger".
Proof.
  unfold appendUnless. destruct (hasParam i "trigger"); [reflexivity|].
  rewrite hasParam_append. simpl. apply orb_false_r.
Qed.

Ltac timing_cases st :=
  unfold appendUnless;
  destruct (hasParam (ls_info st) "trigger") eqn:Etrigger,
           (hasParam (ls_info st) "kptrigger") eqn:Ekptrigger,
           (Info.absoluteTime (ls_info st)) eqn:Eabsolute,
           (Info.repeat (ls_info st)) eqn:Erepeat,
           (dlt (defaultDuration st) 0) eqn:Enone;
  repeat (progress (cbn; rewrite ?Etrigger, ?Ekptrigger, ?Eabsolute, ?Erepeat, ?Enone)).

Lemma addTimingParams_params (st : LoadState) :
  Info.params (addTimingParams st) = Info.params (ls_info st) ++ timingParams st.
Proof.
  unfold addTimingParams, timingParams.
  rewrite hasParam_kptrigger_after_trigger.
  timing_cases st; rewrite <- ?app_assoc; cbn; rewrite ?app_nil_r; reflexivity.
Qed.

Lemma addTimingParams_absoluteTime (st : LoadState) :
  Info.absoluteTime (addTimingParams st) = Info.absoluteTime (ls_info st).
Proof.
  unfold addTimingParams. rewrite hasParam_kptrigger_after_trigger.
  timing_cases st; reflexivity.
Qed.

Lemma addTimingParams_repeat (st : LoadState) :
  Info.repeat (addTimingParams st) = Info.repeat (ls_info st).
Proof.
  unfold addTimingParams. rewrite hasParam_kptrigger_after_trigger.
  timing_cases st; reflexivity.
Qed.

Lemma load_accepted (p : InfoProcess) (i : Info.t) :
  load p Info.empty = (true, i) ->
  stillRunning p = false
  /\ requiredMissing (ls_info (parsed p)) = false
  /\ i = addTimingParams (parsed p).
Proof.
  unfold load, parsed.
  destruct (stillRunning p); [discriminate|].
  destruct (requiredMissing _); [discriminate|].
  intros [= <-]. auto.
Qed.

Lemma parsed_inv (p : InfoProcess) : loadInv (parsed p).
Proof. apply loadInv_readInfo, loadInv_start. reflexivity. Qed.

(** Under the invariant a parameter is found by its exact name. *)
Lemma hasParam_name (st : LoadState) (name : string) :
  loadInv st -> QString.toLower name = name ->
  hasParam (ls_info st) name = true <->
  exists q, In q (Info.params (ls_info st)) /\ Param.name q = name.
Proof.
  intros (I1 & _) Hlow. rewrite hasParam_true, Hlow.
  split; intros [q [Hin Hq]]; exists q; split; trivial.
  - destruct (I1 q Hin) as [<- _]. exact Hq.
  - destruct (I1 q Hin) as [-> _]. exact Hq.
Qed.

Lemma effectiveDefaultDuration_none (st : LoadState) :
  loadInv st -> hasParam (ls_info st) "duration" = false ->
  effectiveDefaultDuration st = 1%Q /\ dlt (defaultDuration st) 0 = true.
Proof.
  intros (_ & I2 & _) Hno. unfold effectiveDefaultDuration.
  rewrite (I2 Hno). split; reflexivity.
Qed.

Lemma effectiveDefaultDuration_some (st : LoadState) :
  loadInv st -> hasParam (ls_info st) "duration" = true ->
  effectiveDefaultDuration st = defaultDuration st
  /\ dlt (defaultDuration st) 0 = false.
Proof.
  intros (_ & _ & _ & I4) Hd. destruct (I4 Hd) as (Hlo & _ & _).
  assert (E : dlt (defaultDuration st) 0 = false)
    by now apply dlt_range_negative.
  unfold effectiveDefaultDuration. now rewrite E.
Qed.

(** ** Reserved parameters of an accepted descriptor *)

Lemma in_timingParams (st : LoadState) (q : Param.t) :
  In q (timingParams st) ->
  (q = triggerParam /\ hasParam (ls_info st) "trigger" = false)
  \/ (q = kptriggerParam /\ hasParam (ls_info st) "kptrigger" = false)
  \/ q = delayParam \/ q = kpdelayParam \/ q = kpreleaseParam
  \/ (q = secondsParam "duration" (effectiveDefaultDuration st)
      /\ dlt (defaultDuration st) 0 = true
      /\ Info.absoluteTime (ls_info st) = false)
  \/ (Info.repeat (ls_info st) = true
      /\ (q = secondsParam "repeat" (effectiveDefaultDuration st)
          \/ q = secondsParam "kprepeat" (effectiveDefaultDuration st)
          \/ q = countParam "stop" (-1) \/ q = countParam "kpstop" 0))
  \/ (Info.repeat (ls_info st) = false
      /\ (q = secondsParam "stop" (-1) \/ q = secondsParam "kpstop" (-1))).
Proof.
  unfold timingParams.
  destruct (hasParam (ls_info st) "trigger"),
           (hasParam (ls_info st) "kptrigger"),
           (Info.absoluteTime (ls_info st)),
           (Info.repeat (ls_info st)),
           (dlt (defaultDuration st) 0);
    cbn; intros H;
    repeat match type of H with
           | _ \/ _ => destruct H as [H | H]
           | False => contradiction
           end; subst q; tauto.
Qed.

(** The parameters that [addTimingParams] always appends. *)
Lemma timingParams_always (st : LoadState) :
  In delayParam (timingParams st) /\ In kpdelayParam (timingParams st)
  /\ In kpreleaseParam (timingParams st)
  /\ (hasParam (ls_info st) "trigger" = false -> In triggerParam (timingParams st))
  /\ (hasParam (ls_info st) "kptrigger" = false ->
      In kptriggerParam (timingParams st))
  /\ (dlt (defaultDuration st) 0 = true ->
      Info.absoluteTime (ls_info st) = false ->
      In (secondsParam "duration" (effectiveDefaultDuration st)) (timingParams st))
  /\ (Info.repeat (ls_info st) = true ->
      In (secondsParam "repeat" (effectiveDefaultDuration st)) (timingParams st)
      /\ In (secondsParam "kprepeat" (effectiveDefaultDuration st)) (timingParams st)
      /\ In (countParam "stop" (-1)) (timingParams st)
      /\ In (countParam "kpstop" 0) (timingParams st))
  /\ (Info.repeat (ls_info st) = false ->
      In (secondsParam "stop" (-1)) (timingParams st)
      /\ In (secondsParam "kpstop" (-1)) (timingParams st)).
Proof.
  unfold timingParams.
  destruct (hasParam (ls_info st) "trigger"),
           (hasParam (ls_info st) "kptrigger"),
           (Info.absoluteTime (ls_info st)),
           (Info.repeat (ls_info st)),
           (dlt (defaultDuration st) 0);
    cbn; repeat split; intros; try discriminate; tauto.
Qed.




(** ** The [duration] parameter *)

(** A [param] line that declares [duration] is skipped, or it is accepted
    as a [Double] in relative time with a default that is neither below
    0.1 nor above [ONE_DAY]. *)
Lemma loadParam_duration (components : list string) (st : LoadState) :
  declaredName components = "duration" ->
  loadParam components st = st
  \/ (Info.absoluteTime (ls_info st) = false
      /\ declaredType components = Some Param.DOUBLE
      /\ dlt (toDouble (declaredDefault components)) (1 # 10) = false
      /\ dlt ONE_DAY (toDouble (declaredDefault components)) = false
      /\ exists prefix postfix,
          loadParam components st =
          {| ls_info :=
               Info.append
                 (Param.mk Param.DOUBLE "duration" prefix postfix
                           (declaredDefault components)
                           (VDouble (1 # 10)) (VDouble ONE_DAY))
                 (ls_info st);
             defaultDuration := toDouble (declaredDefault components) |}).
Proof.
  unfold declaredName, declaredType, declaredDefault, loadParam.
  intros Hname.
  destruct (length components <? 3)%nat; [now left|].
  destruct (paramType _) as [type|]; [|now left].
  rewrite Hname.
  destruct (hasParam (ls_info st) "duration"); [now left|].
  cbn [String.eqb Ascii.eqb Bool.eqb orb andb].
  destruct (Info.absoluteTime (ls_info st)); [now left|].
  destruct (Param.Type_eqb type Param.DOUBLE) eqn:Hty; [|now left].
  cbn [negb orb].
  destruct (dlt _ (1 # 10)) eqn:Hlo; [now left|].
  destruct (dlt ONE_DAY _) eqn:Hhi; [now left|].
  right. cbn [orb].
  assert (type = Param.DOUBLE) as -> by (destruct type; discriminate || reflexivity).
  repeat split; trivial.
  eauto.
Qed.

(** The first [duration] that is declared as a [Double] in relative time
    with a default that is neither below 0.1 nor above [ONE_DAY] is
    accepted. *)
Lemma loadParam_duration_accepted (components : list string) (st : LoadState) :
  (3 <= length components)%nat ->
  declaredName components = "duration" ->
  declaredType components = Some Param.DOUBLE ->
  hasParam (ls_info st) "duration" = false ->
  Info.absoluteTime (ls_info st) = false ->
  dlt (toDouble (declaredDefault components)) (1 # 10) = false ->
  dlt ONE_DAY (toDouble (declaredDefault components)) = false ->
  loadParam components st =
  {| ls_info :=
       Info.append
         (Param.mk Param.DOUBLE "duration"
                   (urlParam (QString.at_ (QString.padTo 8 components) 3))
                   (urlParam (QString.at_ (QString.padTo 8 components) 4))
                   (declaredDefault components)
                   (VDouble (1 # 10)) (VDouble ONE_DAY))
         (ls_info st);
     defaultDuration := toDouble (declaredDefault components) |}.
Proof.
  unfold declaredName, declaredType, declaredDefault, loadParam.
  intros Hlen Hname Hty Hno Hrel Hlo Hhi.
  destruct (Nat.ltb_spec (length components) 3); [lia|].
  rewrite Hty, Hname, Hno, Hrel, Hlo, Hhi. reflexivity.
Qed.

Lemma loadLine_time (st : LoadState) (line : string) :
  commandOf line = "time" -> dlt 0 (defaultDuration st) = true ->
  loadLine st line = st.
Proof.
  unfold commandOf, loadLine. intros -> Hd.
  destruct (length _ <? 2)%nat; [reflexivity|].
  cbn [String.eqb Ascii.eqb Bool.eqb]. now rewrite Hd.
Qed.

(** ** [scan] *)

Lemma scanFile_eq (scripts : gmap QUuid AnimScript) (file : string * InfoProcess) :
  scanFile scripts file =
  match valid file, scripts !! guidOf file with
  | true, None => <[guidOf file := scriptOf file]> scripts
  | _, _ => scripts
  end.
Proof.
  unfold scanFile, valid, guidOf, scriptOf, infoOf. cbn [_info newAnimScript].
  now destruct (load (snd file) Info.empty) as [ok info].
Qed.

Lemma valid_iff (file : string * InfoProcess) :
  valid file = true <->
  stillRunning (snd file) = false
  /\ Info.guid (ls_info (parsed (snd file))) <> 0%N
  /\ Info.name (ls_info (parsed (snd file))) <> ""
  /\ Info.version (ls_info (parsed (snd file))) <> ""
  /\ Info.year (ls_info (parsed (snd file))) <> ""
  /\ Info.author (ls_info (parsed (snd file))) <> ""
  /\ Info.license (ls_info (parsed (snd file))) <> "".
Proof.
  unfold valid, load. fold (parsed (snd file)).
  destruct (stillRunning (snd file)); cbn [fst].
  - split; [discriminate|]. intros [? _]. discriminate.
  - unfold requiredMissing.
    destruct (N.eqb_spec (Info.guid (ls_info (parsed (snd file)))) 0),
      (String.eqb_spec (Info.name (ls_info (parsed (snd file)))) ""),
      (String.eqb_spec (Info.version (ls_info (parsed (snd file)))) ""),
      (String.eqb_spec (Info.year (ls_info (parsed (snd file)))) ""),
      (String.eqb_spec (Info.author (ls_info (parsed (snd file)))) ""),
      (String.eqb_spec (Info.license (ls_info (parsed (snd file)))) "");
      cbn; split; try discriminate; try tauto; intros; tauto.
Qed.

(** The registry after some more candidates: an identity that is present
    stays, a free one is taken by the first valid candidate that has it. *)
Lemma scan_fold_lookup (dir : list (string * InfoProcess))
    (scripts : gmap QUuid AnimScript) (g : QUuid) :
  fold_left scanFile dir scripts !! g =
  match scripts !! g with
  | Some script => Some script
  | None => option_map scriptOf (firstValid g dir)
  end.
Proof.
  revert scripts. induction dir as [|file dir IH]; intros scripts; cbn.
  - now destruct (scripts !! g).
  - rewrite IH, scanFile_eq. unfold firstValid in *.
    destruct (valid file) eqn:Hv; cbn [andb]; [|reflexivity].
    destruct (scripts !! guidOf file) eqn:Hg;
      destruct (N.eqb_spec (guidOf file) g) as [<-|Hne]; cbn.
    + now rewrite Hg.
    + reflexivity.
    + now rewrite lookup_insert_eq, Hg.
    + now rewrite lookup_insert_ne.
Qed.

Lemma scan_fold_size (dir : list (string * InfoProcess))
    (scripts : gmap QUuid AnimScript) :
  NoDup (map guidOf (List.filter valid dir)) ->
  (forall file, In file (List.filter valid dir) -> scripts !! guidOf file = None) ->
  size (fold_left scanFile dir scripts)
  = (size scripts + length (List.filter valid dir))%nat.
Proof.
  revert scripts. induction dir as [|file dir IH]; intros scripts Hnd Hfree; cbn.
  - lia.
  - rewrite scanFile_eq. cbn in Hnd, Hfree.
    destruct (valid file) eqn:Hv.
    + cbn in Hnd. apply NoDup_cons in Hnd as [Hnotin Hnd].
      rewrite (Hfree file) by now left.
      rewrite IH; trivial.
      * rewrite map_size_insert_None by (apply Hfree; now left). cbn. lia.
      * intros f Hf. rewrite lookup_insert_ne; [apply Hfree; now right|].
        intros Heq. apply Hnotin. rewrite Heq.
        apply list_elem_of_In, in_map, Hf.
    + apply IH; trivial.
Qed.

(** C4.  A candidate is valid exactly when its info run has finished within
    the wait and the parsed guid, name, version, year, author and license
    are all present.  [scan] registers a candidate exactly when it is valid
    and its guid is still free, and otherwise leaves the registry as it is:
    the registry maps a guid to the first valid candidate that has it.  When
    the valid candidates have distinct guids, the registry has as many
    entries as there are valid candidates. *)
Theorem scan_accepts_valid_once (dir : list (string * InfoProcess)) :
  (forall file,
      valid file = true <->
      stillRunning (snd file) = false
      /\ Info.guid (ls_info (parsed (snd file))) <> 0%N
      /\ Info.name (ls_info (parsed (snd file))) <> ""
      /\ Info.version (ls_info (parsed (snd file))) <> ""
      /\ Info.year (ls_info (parsed (snd file))) <> ""
      /\ Info.author (ls_info (parsed (snd file))) <> ""
      /\ Info.license (ls_info (parsed (snd file))) <> "")
  /\ (forall scripts file,
         (valid file = true /\ scripts !! guidOf file = None ->
          scanFile scripts file = <[guidOf file := scriptOf file]> scripts)
         /\ (valid file = false \/ is_Some (scripts !! guidOf file) ->
             scanFile scripts file = scripts))
  /\ (forall g, scan dir !! g = option_map scriptOf (firstValid g dir))
  /\ (NoDup (map guidOf (List.filter valid dir)) ->
      size (scan dir) = length (List.filter valid dir)).
Proof.
  split; [exact valid_iff|]. split; [|split].
  - intros scripts file. rewrite scanFile_eq. split.
    + now intros [-> ->].
    + intros [-> | [script ->]]; [reflexivity|]. now destruct (valid file).
  - intros g. unfold scan. rewrite scan_fold_lookup. now rewrite lookup_empty.
  - intros Hnd. unfold scan. rewrite scan_fold_size; trivial.
Qed.

(** ** Writing to the child *)

Lemma wrote_process (cs : list Cmd) (s : AnimScript) (ch : Child) :
  process s = Some ch ->
  process (wrote cs s)
  = Some {| childOutput := childOutput ch; childInput := childInput ch ++ cs |}.
Proof. unfold wrote. now intros ->. Qed.

Lemma write_wrote (c : Cmd) (s : AnimScript) :
  hasProcess s = true -> write c s = Some (wrote [c] s).
Proof.
  unfold hasProcess, write, wrote. now destruct (process s).
Qed.

Lemma hasProcess_wrote (cs : list Cmd) (s : AnimScript) :
  hasProcess (wrote cs s) = hasProcess s.
Proof. unfold hasProcess, wrote. destruct (process s) eqn:E; cbn; now rewrite ?E. Qed.

Lemma wrote_wrote (cs1 cs2 : list Cmd) (s : AnimScript) :
  wrote cs2 (wrote cs1 s) = wrote (cs1 ++ cs2) s.
Proof.
  unfold wrote. destruct (process s) as [ch|] eqn:E; cbn; [|now rewrite E].
  now rewrite app_assoc.
Qed.

Lemma wrote_nil (s : AnimScript) : hasProcess s = true -> wrote [] s = s.
Proof.
  unfold hasProcess, wrote. destruct s as [? ? ? ? ? ? ? ? ? ? ? ? ? ? ? ? ? [[out inp]|] ?];
    cbn; [|discriminate].
  intros _. unfold set_process. cbn. now rewrite app_nil_r.
Qed.

Lemma writeAll_wrote (cs : list Cmd) (s : AnimScript) :
  hasProcess s = true -> writeAll cs s = Some (wrote cs s).
Proof.
  revert s. induction cs as [|c cs IH]; intros s Hp; cbn.
  - unfold skip. now rewrite wrote_nil.
  - unfold andThen. rewrite write_wrote by exact Hp.
    rewrite IH by now rewrite hasProcess_wrote.
    now rewrite wrote_wrote.
Qed.

(** ** The loop of [nextFrame] *)

Lemma Qceiling_unique (x : Q) (z : Z) :
  (inject_Z (z - 1) < x)%Q -> (x <= inject_Z z)%Q -> Qceiling x = z.
Proof.
  intros Hlo Hhi.
  pose proof (Qle_ceiling x) as Hc1. pose proof (Qceiling_lt x) as Hc2.
  assert (H1 : (inject_Z (z - 1) < inject_Z (Qceiling x))%Q)
    by (eapply Qlt_le_trans; eauto).
  assert (H2 : (inject_Z (Qceiling x - 1) < inject_Z z)%Q)
    by (eapply Qlt_le_trans; eauto).
  rewrite <- Zlt_Qlt in H1, H2. lia.
Qed.

Lemma Qceiling_minus_1 (x : Q) : Qceiling (x - 1) = (Qceiling x - 1)%Z.
Proof.
  apply Qceiling_unique.
  - pose proof (Qceiling_lt x) as H.
    replace (Qceiling x - 1 - 1)%Z with ((Qceiling x - 1) + (-1))%Z by lia.
    rewrite inject_Z_plus. change (inject_Z (-1)) with (-1)%Q. lra.
  - pose proof (Qle_ceiling x) as H.
    replace (Qceiling x - 1)%Z with (Qceiling x + (-1))%Z by lia.
    rewrite inject_Z_plus. change (inject_Z (-1)) with (-1)%Q. lra.
Qed.

Lemma Qceiling_gt_1 (x : Q) : (1 < x)%Q -> (2 <= Qceiling x)%Z.
Proof.
  intros H. pose proof (Qle_ceiling x) as Hc.
  assert (H1 : (inject_Z 1 < inject_Z (Qceiling x))%Q)
    by (eapply Qlt_le_trans; eauto).
  rewrite <- Zlt_Qlt in H1. lia.
Qed.

Lemma Qceiling_le_1 (x : Q) : (x <= 1)%Q -> (Qceiling x <= 1)%Z.
Proof.
  intros H. pose proof (Qceiling_lt x) as Hc.
  assert (H1 : (inject_Z (Qceiling x - 1) < inject_Z 1)%Q)
    by (eapply Qlt_le_trans; eauto).
  rewrite <- Zlt_Qlt in H1. lia.
Qed.

(** With fuel for every whole duration in [delta], the loop writes
    [skipCount delta] times [frame 1] and leaves the rest of [delta]. *)
Lemma skipDurations_spec (fuel : nat) (delta : Q) (s : AnimScript) :
  hasProcess s = true -> (Z.to_nat (Qceiling delta) <= fuel)%nat ->
  exists delta',
    skipDurations fuel delta s
    = Some (delta', wrote (List.repeat (Frame 1) (skipCount delta)) s)
    /\ (delta' == delta - inject_Z (Z.of_nat (skipCount delta)))%Q.
Proof.
  revert delta s. induction fuel as [|fuel IH]; intros delta s Hp Hfuel.
  - cbn. destruct (Qltb 1 delta) eqn:E.
    + apply Qltb_lt, Qceiling_gt_1 in E. lia.
    + apply Qltb_ge, Qceiling_le_1 in E.
      exists delta. unfold skipCount.
      replace (Z.to_nat (Qceiling delta - 1)) with O by lia.
      cbn [List.repeat]. rewrite wrote_nil by exact Hp. split; [reflexivity|].
      change (inject_Z (Z.of_nat 0)) with 0%Q. lra.
  - cbn. destruct (Qltb 1 delta) eqn:E.
    + apply Qltb_lt, Qceiling_gt_1 in E.
      rewrite write_wrote by exact Hp.
      destruct (IH (delta - 1)%Q (wrote [Frame 1] s)) as (delta' & Heq & Hd).
      * now rewrite hasProcess_wrote.
      * rewrite Qceiling_minus_1. lia.
      * exists delta'. rewrite Heq, wrote_wrote.
        assert (Hn : skipCount delta = S (skipCount (delta - 1))).
        { unfold skipCount. rewrite Qceiling_minus_1. lia. }
        rewrite Hn. split; [reflexivity|].
        rewrite Hd, Nat2Z.inj_succ. unfold Z.succ. rewrite inject_Z_plus.
        change (inject_Z 1) with 1%Q. lra.
    + apply Qltb_ge, Qceiling_le_1 in E.
      exists delta. unfold skipCount.
      replace (Z.to_nat (Qceiling delta - 1)) with O by lia.
      cbn [List.repeat]. rewrite wrote_nil by exact Hp. split; [reflexivity|].
      change (inject_Z (Z.of_nat 0)) with 0%Q. lra.
Qed.

Lemma Qltb_comp (x x' y y' : Q) :
  (x == x')%Q -> (y == y')%Q -> Qltb x y = Qltb x' y'.
Proof. intros Hx Hy. unfold Qltb. now rewrite Hx, Hy. Qed.

Lemma clamp_comp (x y : Q) : (x == y)%Q -> (clamp x == clamp y)%Q.
Proof.
  intros H. unfold clamp. rewrite (Qltb_comp x y 0 0 H (Qeq_refl 0)).
  now destruct (Qltb y 0).
Qed.

(** The part of [nextFrame] that follows the computation of [delta]. *)
Lemma nextFrame_tail (timestamp : Z) (delta : Q) (s : AnimScript) (absolute : bool) :
  hasProcess s = true ->
  match (if absolute then Some (delta, s)
         else skipDurations (Z.to_nat (Qceiling delta)) delta s) with
  | None => None
  | Some (delta, s) =>
      let delta : Q := if Qltb delta 0 then 0%Q else delta in
      let s := set_lastFrame timestamp s in
      (write (Frame (Qred delta)) >> pure (set_firstFrame true)) s
  end
  = Some (set_firstFrame true
            (wrote (List.repeat (Frame 1) (if absolute then O else skipCount delta)
                    ++ [Frame (Qred (clamp
                          (delta - inject_Z (Z.of_nat
                             (if absolute then O else skipCount delta)))))])
                   (set_lastFrame timestamp s))).
Proof.
  intros Hp. destruct absolute.
  - cbn [List.repeat app]. unfold andThen, pure.
    rewrite write_wrote by exact Hp.
    fold (clamp delta).
    assert (E : Qred (clamp delta) = Qred (clamp (delta - inject_Z (Z.of_nat 0)))).
    { apply Qred_complete, clamp_comp. change (inject_Z (Z.of_nat 0)) with 0%Q. lra. }
    now rewrite E.
  - destruct (skipDurations_spec (Z.to_nat (Qceiling delta)) delta s Hp (le_n _))
      as (delta' & Heq & Hd).
    rewrite Heq. unfold andThen, pure.
    rewrite write_wrote
      by (change (hasProcess (wrote (List.repeat (Frame 1) (skipCount delta)) s)
                  = true);
          now rewrite hasProcess_wrote).
    fold (clamp delta').
    rewrite (Qred_complete _ _ (clamp_comp _ _ Hd)).
    f_equal. f_equal.
    unfold wrote. cbn [process set_lastFrame].
    unfold hasProcess in Hp. destruct (process s) as [ch|]; [|discriminate].
    cbn. now rewrite <- app_assoc.
Qed.

(** [nextFrame] in closed form: it never fails while a child is held. *)
Lemma nextFrame_spec (timestamp : Z) (s : AnimScript) :
  hasProcess s = true ->
  nextFrame timestamp s
  = Some (set_firstFrame true
            (wrote (frameCommands timestamp s)
                   (set_lastFrame timestamp (note (Advanced timestamp) s)))).
Proof.
  intros Hp. unfold nextFrame, frameCommands, elapsed.
  cbn [note lastFrame set_history].
  destruct (timestamp <=? lastFrame s)%Z.
  - exact (nextFrame_tail timestamp _
             (set_lastFrame timestamp (note (Advanced timestamp) s))
             (Info.absoluteTime (_info s)) Hp).
  - exact (nextFrame_tail timestamp _ (note (Advanced timestamp) s)
             (Info.absoluteTime (_info s)) Hp).
Qed.

Lemma skipCount_comp (x y : Q) : (x == y)%Q -> skipCount x = skipCount y.
Proof. intros H. unfold skipCount. now rewrite (Qceiling_comp x y H). Qed.

Lemma skipCount_minimal (delta : Q) :
  (delta - inject_Z (Z.of_nat (skipCount delta)) <= 1)%Q
  /\ ((0 < skipCount delta)%nat ->
      (0 < delta - inject_Z (Z.of_nat (skipCount delta)))%Q)
  /\ ((delta <= 1)%Q -> skipCount delta = O).
Proof.
  unfold skipCount.
  pose proof (Qle_ceiling delta) as Hhi. pose proof (Qceiling_lt delta) as Hlo.
  replace (Qceiling delta - 1)%Z with (Qceiling delta + (-1))%Z in Hlo by lia.
  rewrite inject_Z_plus in Hlo. change (inject_Z (-1)) with (-1)%Q in Hlo.
  destruct (Z_le_gt_dec (Qceiling delta) 1) as [Hle | Hgt].
  - replace (Z.to_nat (Qceiling delta - 1)) with O by lia.
    change (inject_Z (Z.of_nat 0)) with 0%Q.
    assert (H1 : (inject_Z (Qceiling delta) <= inject_Z 1)%Q) by now rewrite <- Zle_Qle.
    change (inject_Z 1) with 1%Q in H1.
    repeat split; try lia; lra.
  - rewrite Z2Nat.id by lia.
    replace (Qceiling delta - 1)%Z with (Qceiling delta + (-1))%Z by lia.
    rewrite inject_Z_plus. change (inject_Z (-1)) with (-1)%Q.
    repeat split; try lra.
    intros H1.
    assert (H2 : (inject_Z (Qceiling delta + -1) < inject_Z 1)%Q).
    { rewrite inject_Z_plus. change (inject_Z (-1)) with (-1)%Q.
      change (inject_Z 1) with 1%Q. lra. }
    rewrite <- Zlt_Qlt in H2. lia.
Qed.

(** [setDuration] never leaves a duration of 0: [nextFrame] never divides
    by zero on an instance that went through [init]. *)
Lemma setDuration_nonzero (s : AnimScript) :
  durationMsec (setDuration s) <> 0%Z.
Proof.
  unfold setDuration. destruct (Info.absoluteTime (_info s)); cbn.
  - discriminate.
  - destruct (Z.leb_spec (toMsec (toDouble (paramValue s "duration"))) 0);
      [discriminate|lia].
Qed.

Lemma init_nonzero (map : KeyMap) (keys : list string)
    (paramValues : list (string * QVariant)) (s : AnimScript) :
  _path s <> "" ->
  initialized (init map keys paramValues s) = true
  /\ process (init map keys paramValues s) = None
  /\ durationMsec (init map keys paramValues s) <> 0%Z.
Proof.
  intros Hpath. unfold init.
  destruct (String.eqb_spec (_path s) ""); [contradiction|].
  cbn [initialized set_initialized set_firstFrame set_stopped process durationMsec].
  repeat split.
  - unfold setDuration. cbn [_info set_paramValues set_keys set_map stop set_process set_colors].
    now destruct (Info.absoluteTime (_info s)).
  - apply setDuration_nonzero.
Qed.

(** C1.  A call of [nextFrame] on an object that holds its child, with a
    duration other than 0 and a timestamp less than 2^53 milliseconds after
    [lastFrame], sets [lastFrame] to the timestamp and writes frame
    commands to the child.  When the timestamp is not after [lastFrame], it
    writes the single command [frame 0].  In relative time and after
    [lastFrame] it writes [frame 1] once for every iteration of the loop
    (the least number that brings delta down to at most 1, each iteration
    taking 1 from delta) and then the rest of delta; so a timestamp 2.5
    durations after [lastFrame] gives [frame 1], [frame 1], [frame 0.5].
    Below 2^53 the elapsed milliseconds are exact in binary64 and so is
    every subtraction of the loop, which therefore ends as it does here;
    the written delta is the exact one, which binary64 rounds in its 53rd
    bit (2.5, 1.5 and 0.5 are exact).  Beyond that bound the loop of the
    source need not end. *)
Theorem nextFrame_emits (timestamp : Z) (s : AnimScript) (ch : Child) :
  process s = Some ch ->
  durationMsec s <> 0%Z ->
  (0 <= lastFrame s)%Z -> (timestamp < 2 ^ 64)%Z ->
  (timestamp - lastFrame s < 2 ^ 53)%Z ->
  exists s' cmds,
    nextFrame timestamp s = Some s'
    /\ lastFrame s' = timestamp
    /\ process s'
       = Some {| childOutput := childOutput ch;
                 childInput := childInput ch ++ cmds |}
    /\ ((timestamp <= lastFrame s)%Z -> cmds = [Frame 0])
    /\ (Info.absoluteTime (_info s) = false -> (lastFrame s < timestamp)%Z ->
        let delta :=
          (inject_Z (timestamp - lastFrame s) / inject_Z (durationMsec s))%Q in
        let n := skipCount delta in
        cmds = List.repeat (Frame 1) n
               ++ [Frame (Qred (clamp (delta - inject_Z (Z.of_nat n))))]
        /\ (delta - inject_Z (Z.of_nat n) <= 1)%Q
        /\ ((0 < n)%nat -> (0 < delta - inject_Z (Z.of_nat n))%Q)
        /\ ((delta <= 1)%Q -> n = O))
    /\ (Info.absoluteTime (_info s) = false -> (0 < durationMsec s)%Z ->
        (2 * (timestamp - lastFrame s) = 5 * durationMsec s)%Z ->
        cmds = [Frame 1; Frame 1; Frame (1 # 2)]).
Proof.
  intros Hproc Hdur Hlf Hts Hbound.
  assert (Hp : hasProcess s = true) by (unfold hasProcess; now rewrite Hproc).
  exists (set_firstFrame true
            (wrote (frameCommands timestamp s)
                   (set_lastFrame timestamp (note (Advanced timestamp) s)))),
         (frameCommands timestamp s).
  split; [now apply nextFrame_spec|].
  split; [unfold wrote; cbn; now rewrite Hproc|].
  split; [unfold wrote; cbn; now rewrite Hproc|].
  assert (Hafter : (lastFrame s < timestamp)%Z ->
                   (elapsed timestamp s
                    == inject_Z (timestamp - lastFrame s) / inject_Z (durationMsec s))%Q).
  { intros Hlt. unfold elapsed.
    destruct (Z.leb_spec timestamp (lastFrame s)) as [Hle|_]; [lia|].
    unfold wrap64. rewrite Z.mod_small by lia. reflexivity. }
  split; [|split].
  - intros Hle. unfold frameCommands, elapsed.
    destruct (Z.leb_spec timestamp (lastFrame s)) as [_|Hgt]; [|lia].
    rewrite Z.sub_diag. change (wrap64 0) with 0%Z.
    set (delta := (inject_Z 0 / inject_Z (durationMsec s))%Q).
    assert (Hd : (delta == 0)%Q).
    { unfold delta. change (inject_Z 0) with 0%Q. unfold Qdiv. lra. }
    assert (Hn : skipCount delta = O) by now rewrite (skipCount_comp _ _ Hd).
    rewrite Hn.
    assert (Hz : Qred (clamp (delta - inject_Z (Z.of_nat 0))) = 0%Q).
    { transitivity (Qred (clamp 0)); [|reflexivity].
      apply Qred_complete, clamp_comp.
      change (inject_Z (Z.of_nat 0)) with 0%Q. lra. }
    destruct (Info.absoluteTime (_info s)); cbn [List.repeat app]; now rewrite Hz.
  - intros Hrel Hlt delta n.
    pose proof (Hafter Hlt) as Hd. fold delta in Hd.
    split; [|apply skipCount_minimal].
    unfold frameCommands. rewrite Hrel.
    rewrite (skipCount_comp _ _ Hd). fold n.
    f_equal. f_equal. f_equal. apply Qred_complete, clamp_comp.
    now rewrite Hd.
  - intros Hrel Hpos H25.
    assert (Hlt : (lastFrame s < timestamp)%Z) by lia.
    pose proof (Hafter Hlt) as Hd.
    assert (Hq : (elapsed timestamp s == 5 # 2)%Q).
    { rewrite Hd.
      assert (Hx : (inject_Z (timestamp - lastFrame s)
                    == (5 # 2) * inject_Z (durationMsec s))%Q).
      { unfold Qeq, inject_Z. cbn. lia. }
      rewrite Hx. apply Qdiv_mult_l.
      intros H0. unfold Qeq, inject_Z in H0. cbn in H0. lia. }
    unfold frameCommands. rewrite Hrel.
    rewrite (skipCount_comp _ _ Hq).
    change (skipCount (5 # 2)) with 2%nat. cbn [List.repeat app].
    assert (Hz : Qred (clamp (elapsed timestamp s - inject_Z (Z.of_nat 2)))
                 = (1 # 2)%Q).
    { transitivity (Qred (clamp ((5 # 2) - inject_Z (Z.of_nat 2))));
        [|reflexivity].
      apply Qred_complete, clamp_comp. now rewrite Hq. }
    now rewrite Hz.
Qed.

(** ** [printParams] and [start] *)

Lemma printParams_spec (s : AnimScript) :
  hasProcess s = true -> printParams s = Some (wrote (paramBlock s) s).
Proof.
  intros Hp. unfold printParams, paramBlock, andThen.
  rewrite write_wrote by exact Hp.
  rewrite writeAll_wrote by now rewrite hasProcess_wrote.
  rewrite write_wrote by now rewrite !hasProcess_wrote.
  now rewrite !wrote_wrote.
Qed.

(** The first loop of [start] removes every key without a position. *)
Lemma boundKey_keeps (map : KeyMap) (keys : list string)
    (keysCopy : list string) (mx my : Z) :
  (forall k, In k keysCopy -> map k = None -> In k keys) ->
  forall k, In k (fst (fst (fold_left (boundKey map) keys (keysCopy, mx, my)))) ->
            map k <> None.
Proof.
  revert keysCopy mx my.
  induction keys as [|key keys IH]; intros keysCopy mx my Hinv k Hk; cbn in Hk.
  - intros Hnone. exact (Hinv k Hk Hnone).
  - destruct (map key) as [pos|] eqn:Hkey.
    + apply IH in Hk; trivial.
      intros k' Hin Hnone. destruct (Hinv k' Hin Hnone) as [<-|Hrest]; trivial.
      congruence.
    + apply IH in Hk; trivial.
      intros k' Hin Hnone. apply filter_In in Hin as [Hin Hne].
      destruct (Hinv k' Hin Hnone) as [<-|Hrest]; trivial.
      rewrite String.eqb_refl in Hne. discriminate.
Qed.

Lemma writeKeys_spec (keys : list string) (s : AnimScript) :
  hasProcess s = true -> (forall k, In k keys -> _map s k <> None) ->
  writeKeys keys s = Some (wrote (keyLines s keys) s).
Proof.
  unfold keyLines.
  assert (Hgen : forall cs, hasProcess s = true ->
            (forall k, In k keys -> _map s k <> None) ->
            writeKeys keys (wrote cs s)
            = Some (wrote (cs ++ List.flat_map
                             (fun key =>
                                match _map s key with
                                | Some pos =>
                                    [KeymapKey key (KeyPos.x pos - minX s)
                                               (KeyPos.y pos - minY s)]
                                | None => []
                                end) keys) s)).
  { induction keys as [|key keys IH]; intros cs Hp Hpos; cbn.
    - unfold skip. now rewrite app_nil_r.
    - unfold andThen, writeKey.
      assert (Hm : _map (wrote cs s) = _map s)
        by (unfold wrote; now destruct (process s)).
      assert (Hx : minX (wrote cs s) = minX s)
        by (unfold wrote; now destruct (process s)).
      assert (Hy : minY (wrote cs s) = minY s)
        by (unfold wrote; now destruct (process s)).
      rewrite Hm, Hx, Hy.
      destruct (_map s key) as [pos|] eqn:Hkey;
        [|now elim (Hpos key (or_introl eq_refl))].
      rewrite write_wrote by now rewrite hasProcess_wrote.
      rewrite wrote_wrote, IH; trivial.
      + now rewrite <- app_assoc.
      + intros k Hk. apply Hpos. now right. }
  intros Hp Hpos. rewrite <- (wrote_nil s Hp) at 1.
  now rewrite Hgen.
Qed.

(** [start] on an initialized object never fails: it sets the object up,
    writes the handshake to the new child and records the timestamp. *)
Lemma start_spec (timestamp : Z) (s : AnimScript) :
  initialized s = true ->
  start timestamp s
  = Some (set_lastFrame timestamp (wrote (startCommands s) (startSetup s))).
Proof.
  intros Hinit. unfold start, startCommands, startSetup, startKeys.
  rewrite Hinit. cbn [negb].
  set (s0 := set_process (Some {| childOutput := []; childInput := [] |})
               (set_readAnyFrame false
                  (set_readFrame false
                     (set_firstFrame false (set_stopped false (stop s)))))).
  change (_map s0) with (_map s). change (_keys s0) with (_keys s).
  pose proof (boundKey_keeps (_map s) (_keys s) (_keys s) INT_MAX INT_MAX
                (fun k Hin _ => Hin)) as Hkeep.
  destruct (fold_left (boundKey (_map s)) (_keys s) (_keys s, INT_MAX, INT_MAX))
    as [[keysCopy mx] my].
  cbn [fst] in *.
  set (s1 := set_minY my (set_minX mx s0)).
  assert (Hp : hasProcess s1 = true) by reflexivity.
  unfold andThen, pure.
  rewrite write_wrote by exact Hp.
  rewrite write_wrote by now rewrite hasProcess_wrote.
  rewrite wrote_wrote.
  assert (Hk : writeKeys keysCopy (wrote [BeginKeymap; Keycount (length keysCopy)] s1)
               = Some (wrote ([BeginKeymap; Keycount (length keysCopy)]
                              ++ keyLines s1 keysCopy) s1)).
  { rewrite writeKeys_spec.
    - rewrite wrote_wrote. reflexivity.
    - now rewrite hasProcess_wrote.
    - exact Hkeep. }
  cbn [app] in Hk |- *. rewrite Hk.
  rewrite write_wrote by now rewrite hasProcess_wrote.
  rewrite printParams_spec by now rewrite !hasProcess_wrote.
  rewrite write_wrote by now rewrite !hasProcess_wrote.
  rewrite !wrote_wrote.
  assert (Hpb : paramBlock (wrote (BeginKeymap :: Keycount (length keysCopy)
                                   :: keyLines s1 keysCopy ++ [EndKeymap]) s1)
                = paramBlock s) by reflexivity.
  cbn [app] in Hpb |- *. rewrite Hpb.
  rewrite <- ?app_assoc. reflexivity.
Qed.

(** ** [start], [nextFrame] and [retrigger] in closed form *)

Lemma startSetup_fields (s : AnimScript) :
  hasProcess (startSetup s) = true
  /\ initialized (startSetup s) = initialized s
  /\ stopped (startSetup s) = false
  /\ firstFrame (startSetup s) = false
  /\ readFrame (startSetup s) = false
  /\ _info (startSetup s) = _info s
  /\ repeatMsec (startSetup s) = repeatMsec s
  /\ durationMsec (startSetup s) = durationMsec s
  /\ history (startSetup s) = history s.
Proof.
  unfold startSetup.
  destruct (fold_left _ _ _) as [[keysCopy mx] my]. cbn. tauto.
Qed.

Lemma wrote_fields (cs : list Cmd) (s : AnimScript) :
  initialized (wrote cs s) = initialized s
  /\ stopped (wrote cs s) = stopped s
  /\ firstFrame (wrote cs s) = firstFrame s
  /\ readFrame (wrote cs s) = readFrame s
  /\ _info (wrote cs s) = _info s
  /\ repeatMsec (wrote cs s) = repeatMsec s
  /\ durationMsec (wrote cs s) = durationMsec s
  /\ lastFrame (wrote cs s) = lastFrame s
  /\ history (wrote cs s) = history s.
Proof. unfold wrote. destruct (process s); cbn; tauto. Qed.

Lemma set_lastFrame_fields (timestamp : Z) (s : AnimScript) :
  hasProcess (set_lastFrame timestamp s) = hasProcess s
  /\ initialized (set_lastFrame timestamp s) = initialized s
  /\ stopped (set_lastFrame timestamp s) = stopped s
  /\ firstFrame (set_lastFrame timestamp s) = firstFrame s
  /\ readFrame (set_lastFrame timestamp s) = readFrame s
  /\ _info (set_lastFrame timestamp s) = _info s
  /\ repeatMsec (set_lastFrame timestamp s) = repeatMsec s
  /\ durationMsec (set_lastFrame timestamp s) = durationMsec s
  /\ history (set_lastFrame timestamp s) = history s.
Proof. cbn. tauto. Qed.

Lemma started_fields (timestamp : Z) (s : AnimScript) :
  hasProcess (started timestamp s) = true
  /\ initialized (started timestamp s) = initialized s
  /\ stopped (started timestamp s) = false
  /\ firstFrame (started timestamp s) = false
  /\ readFrame (started timestamp s) = false
  /\ _info (started timestamp s) = _info s
  /\ repeatMsec (started timestamp s) = repeatMsec s
  /\ durationMsec (started timestamp s) = durationMsec s
  /\ history (started timestamp s) = history s.
Proof.
  unfold started.
  pose proof (startSetup_fields s) as (Hp & Hi & Hs & Hf & Hr & Hinfo & Hrep & Hd & Hh).
  pose proof (wrote_fields (startCommands s) (startSetup s))
    as (Wi & Ws & Wf & Wr & Winfo & Wrep & Wd & _ & Wh).
  pose proof (hasProcess_wrote (startCommands s) (startSetup s)) as Wp.
  destruct (set_lastFrame_fields timestamp (wrote (startCommands s) (startSetup s)))
    as (-> & -> & -> & -> & -> & -> & -> & -> & ->).
  repeat split; congruence.
Qed.

Lemma ensureStarted_spec (timestamp : Z) (s : AnimScript) :
  initialized s = true ->
  ensureStarted timestamp s = Some (ensured timestamp s).
Proof.
  intros Hinit. unfold ensureStarted, ensured.
  destruct (hasProcess s); [reflexivity|].
  now apply start_spec.
Qed.

Lemma ensured_fields (timestamp : Z) (s : AnimScript) :
  hasProcess (ensured timestamp s) = true
  /\ initialized (ensured timestamp s) = initialized s
  /\ _info (ensured timestamp s) = _info s
  /\ repeatMsec (ensured timestamp s) = repeatMsec s
  /\ history (ensured timestamp s) = history s.
Proof.
  unfold ensured. destruct (hasProcess s) eqn:Hp; [tauto|].
  pose proof (started_fields timestamp s). tauto.
Qed.

Lemma nextFrame_afterFrame (timestamp : Z) (s : AnimScript) :
  hasProcess s = true -> nextFrame timestamp s = Some (afterFrame timestamp s).
Proof. apply nextFrame_spec. Qed.

Lemma afterFrame_fields (timestamp : Z) (s : AnimScript) :
  hasProcess (afterFrame timestamp s) = hasProcess s
  /\ initialized (afterFrame timestamp s) = initialized s
  /\ stopped (afterFrame timestamp s) = stopped s
  /\ firstFrame (afterFrame timestamp s) = true
  /\ readFrame (afterFrame timestamp s) = readFrame s
  /\ _info (afterFrame timestamp s) = _info s
  /\ repeatMsec (afterFrame timestamp s) = repeatMsec s
  /\ lastFrame (afterFrame timestamp s) = timestamp
  /\ history (afterFrame timestamp s) = history s ++ [Advanced timestamp].
Proof.
  unfold afterFrame, wrote, hasProcess. cbn.
  destruct (process s) eqn:E; cbn; rewrite ?E; tauto.
Qed.









(** ** [parameters] *)

(** C3, as the code has it.  [parameters] leaves the instance unchanged
    unless it is initialized, holds a running child and the descriptor
    declares live parameters.  When all three hold, it replaces the value
    mapping, recomputes [durationMsec] and [repeatMsec] from it and writes
    the parameter block of the new values to the child. *)
Theorem parameters_guarded (paramValues : list (string * QVariant))
    (s : AnimScript) :
  (initialized s = false \/ process s = None
   \/ Info.liveParams (_info s) = false ->
   parameters paramValues s = Some s)
  /\ (forall ch,
         initialized s = true -> process s = Some ch ->
         Info.liveParams (_info s) = true ->
         exists s',
           parameters paramValues s = Some s'
           /\ _paramValues s' = paramValues
           /\ durationMsec s'
              = durationMsec (setDuration (set_paramValues paramValues s))
           /\ repeatMsec s'
              = repeatMsec (setDuration (set_paramValues paramValues s))
           /\ process s'
              = Some {| childOutput := childOutput ch;
                        childInput :=
                          childInput ch
                          ++ [BeginParams]
                          ++ List.map (fun kv => ParamLine (fst kv) (snd kv))
                               paramValues
                          ++ [EndParams] |}).
Proof.
  split.
  - unfold parameters, hasProcess.
    intros [-> | [-> | ->]]; [reflexivity| |];
      destruct (initialized s); cbn; try reflexivity.
    now destruct (process s).
  - intros ch Hinit Hproc Hlive.
    set (s1 := setDuration (set_paramValues paramValues s)).
    assert (Hproc1 : process s1 = Some ch).
    { unfold s1, setDuration. cbn [_info set_paramValues].
      now destruct (Info.absoluteTime (_info s)). }
    assert (Hpv1 : _paramValues s1 = paramValues).
    { unfold s1, setDuration. cbn [_info set_paramValues].
      now destruct (Info.absoluteTime (_info s)). }
    assert (Hp1 : hasProcess s1 = true) by (unfold hasProcess; now rewrite Hproc1).
    exists (wrote (paramBlock s1) s1).
    split.
    + unfold parameters, hasProcess. rewrite Hinit, Hproc, Hlive. cbn [negb orb].
      unfold andThen, pure. fold s1. now apply printParams_spec.
    + pose proof (wrote_fields (paramBlock s1) s1)
        as (_ & _ & _ & _ & _ & Hrep & Hdur & _ & _).
      repeat split; trivial.
      * unfold wrote. now rewrite Hproc1.
      * rewrite (wrote_process _ _ _ Hproc1). unfold paramBlock.
        now rewrite Hpv1.
Qed.

(** ** [readProcess] *)

(** C2, as the code has it.  When the read loop meets a line that is
    [end run] after trimming while no frame is being buffered, it marks the
    instance stopped and returns, leaving the later lines unread.  While a
    frame is being buffered, which is so from the line after [begin frame]
    on, the same line is appended to the buffer and the loop goes on: it
    does not mark the instance stopped. *)
Theorem end_run_outside_frame (raw : string) (rest : list string)
    (s : AnimScript) :
  QString.trimmed raw = "end run" ->
  (inputBuffer s = [] ->
   readLines (raw :: rest) s = (rest, set_stopped true s))
  /\ (inputBuffer s <> [] ->
      readLines (raw :: rest) s
      = readLines rest (set_inputBuffer (inputBuffer s ++ ["end run"]) s))
  /\ (inputBuffer s = [] ->
      readLines ("begin frame" :: raw :: rest) s
      = readLines rest (set_inputBuffer ["begin frame"; "end run"] s)).
Proof.
  intros Hraw. split; [|split].
  - intros Hempty. cbn [readLines]. rewrite Hraw, Hempty. reflexivity.
  - intros Hbuf. cbn [readLines]. rewrite Hraw.
    destruct (inputBuffer s) as [|l ls] eqn:E; [contradiction|].
    reflexivity.
  - intros Hempty. cbn [readLines].
    change (QString.trimmed "begin frame") with "begin frame".
    rewrite Hempty, Hraw. reflexivity.
Qed.

(** ** [frame] and the throttle *)

Lemma throttledFrom_reads (pending : bool) (k : nat) (h : list Event) :
  throttledFrom pending (List.repeat FrameRead k ++ h)
  <-> throttledFrom (match k with O => pending | S _ => false end) h.
Proof.
  destruct k as [|k]; [reflexivity|].
  cbn. induction k as [|k IH]; [reflexivity|exact IH].
Qed.

(** Between two advances of a throttled history there is a frame read. *)
Lemma throttledFrom_between (pending : bool) (h : list Event) :
  throttledFrom pending h ->
  forall h1 t1 mid t2 h2,
    h = h1 ++ Advanced t1 :: mid ++ Advanced t2 :: h2 -> In FrameRead mid.
Proof.
  intros Hthr h1. revert pending h Hthr.
  induction h1 as [|e h1 IH]; intros pending h Hthr t1 mid t2 h2 ->.
  - cbn in Hthr. destruct Hthr as [_ Hthr].
    clear pending. induction mid as [|e mid IHm]; cbn in Hthr.
    + destruct Hthr as [Hbad _]. discriminate.
    + destruct e as [t|]; [|now left].
      destruct Hthr as [Hbad _]. discriminate.
  - destruct e as [t|]; cbn in Hthr.
    + destruct Hthr as [_ Hthr]. exact (IH true _ Hthr t1 mid t2 h2 eq_refl).
    + exact (IH false _ Hthr t1 mid t2 h2 eq_refl).
Qed.

(** What the read loop does to the flags of the throttle: it records a
    number of frame reads, and touches [readFrame] only if it reads one. *)
Lemma readLines_effect (lines : list string) (s : AnimScript) :
  exists k,
    history (snd (readLines lines s)) = history s ++ List.repeat FrameRead k
    /\ (k = O -> readFrame (snd (readLines lines s)) = readFrame s)
    /\ firstFrame (snd (readLines lines s)) = firstFrame s
    /\ process (snd (readLines lines s)) = process s.
Proof.
  revert s. induction lines as [|raw rest IH]; intros s; cbn [readLines].
  - exists O. cbn. now rewrite app_nil_r.
  - destruct ((length (inputBuffer s) =? 0)%nat
              && negb (String.eqb (QString.trimmed raw) "begin frame")).
    + destruct (String.eqb (QString.trimmed raw) "end run").
      * exists O. cbn. now rewrite app_nil_r.
      * apply IH.
    + destruct (String.eqb (QString.trimmed raw) "end frame").
      * match goal with
        | |- context [readLines rest ?s'] =>
            destruct (IH s') as (k & Hh & _ & Hf & Hp)
        end.
        exists (S k). rewrite Hh, Hf, Hp. cbn.
        rewrite <- app_assoc. repeat split. discriminate.
      * match goal with
        | |- context [readLines rest ?s'] =>
            destruct (IH s') as (k & Hh & Hr & Hf & Hp)
        end.
        exists k. rewrite Hh, Hf, Hp. repeat split. exact Hr.
Qed.

Lemma childWrites_effect (lines : list string) (s : AnimScript) :
  exists s' k,
    childWrites lines s = Some s'
    /\ history s' = history s ++ List.repeat FrameRead k
    /\ (k = O -> readFrame s' = readFrame s)
    /\ firstFrame s' = firstFrame s
    /\ hasProcess s' = hasProcess s.
Proof.
  unfold childWrites, hasProcess.
  destruct (process s) as [ch|] eqn:Hproc.
  - unfold readProcess. cbn [process set_process].
    match goal with
    | |- context [readLines ?ls ?s0] =>
        destruct (readLines_effect ls s0) as (k & Hh & Hr & Hf & Hp);
        destruct (readLines ls s0) as [rest s1]
    end.
    cbn [snd] in *. exists (set_process
                              (Some {| childOutput := rest;
                                       childInput := childInput ch |}) s1), k.
    cbn. repeat split; trivial.
  - exists s, O. cbn. rewrite app_nil_r, Hproc. repeat split.
Qed.

(** One call of [frame]: it leaves the history, or it advances once, and
    then only from an object that is not blocked; afterwards the object is
    blocked until a frame is read. *)
Lemma frame_effect (timestamp : Z) (s : AnimScript) :
  exists s',
    frame timestamp s = Some s'
    /\ ((history s' = history s /\ sent s' = sent s
         /\ lastFrame s' = lastFrame s /\ (blocked s -> blocked s'))
        \/ (history s' = history s ++ [Advanced timestamp]
            /\ (hasProcess s = false \/ readFrame s = true \/ firstFrame s = false)
            /\ blocked s')).
Proof.
  unfold frame.
  destruct (initialized s) eqn:Hinit; cbn [negb orb];
    [|exists s; split; [reflexivity|left; tauto]].
  destruct (stopped s) eqn:Hstop; [exists s; split; [reflexivity|left; tauto]|].
  unfold andThen, pure. rewrite ensureStarted_spec by exact Hinit.
  pose proof (ensured_fields timestamp s) as (Hp0 & _ & _ & _ & Hh0).
  destruct (readFrame (ensured timestamp s) || negb (firstFrame (ensured timestamp s)))
    eqn:Hguard.
  - rewrite nextFrame_afterFrame by exact Hp0.
    pose proof (afterFrame_fields timestamp (ensured timestamp s))
      as (Hpa & _ & _ & Hfa & _ & _ & _ & _ & Hha).
    eexists. split; [reflexivity|]. right.
    cbn [history set_readFrame]. rewrite Hha, Hh0.
    split; [reflexivity|]. split.
    + unfold ensured in Hguard. destruct (hasProcess s); [|now left].
      right. destruct (readFrame s); [now left|]. right.
      now destruct (firstFrame s).
    + unfold blocked. cbn [firstFrame readFrame set_readFrame].
      change (hasProcess (set_readFrame false (afterFrame timestamp (ensured timestamp s))))
        with (hasProcess (afterFrame timestamp (ensured timestamp s))).
      rewrite Hpa, Hp0, Hfa. tauto.
  - assert (Hhas : hasProcess s = true).
    { destruct (hasProcess s) eqn:Hp; [reflexivity|].
      unfold ensured in Hguard. rewrite Hp in Hguard.
      pose proof (started_fields timestamp s) as (_ & _ & _ & Hf & _).
      rewrite Hf in Hguard. now rewrite orb_true_r in Hguard. }
    assert (Hens : ensured timestamp s = s) by (unfold ensured; now rewrite Hhas).
    rewrite Hens in *.
    eexists. split; [reflexivity|]. left.
    apply orb_false_iff in Hguard as [Hr Hf]. apply negb_false_iff in Hf.
    unfold blocked, sent. cbn. rewrite Hf. unfold hasProcess in Hhas. tauto.
Qed.

(** A run of calls never fails, and its history is throttled. *)
Lemma runCalls_throttled (calls : list Call) (s : AnimScript) (pending : bool) :
  (pending = true -> blocked s) ->
  exists s' h,
    runCalls calls s = Some s'
    /\ history s' = history s ++ h
    /\ throttledFrom pending h.
Proof.
  revert s pending. induction calls as [|c calls IH]; intros s pending Hpend.
  - exists s, []. cbn. now rewrite app_nil_r.
  - cbn [runCalls]. unfold andThen. destruct c as [timestamp|lines]; cbn [call].
    + destruct (frame_effect timestamp s)
        as (s1 & -> & [(Hh & _ & _ & Hb) | (Hh & Hguard & Hb)]).
      * destruct (IH s1 pending (fun H => Hb (Hpend H))) as (s' & h & Hrun & Hh' & Hthr).
        exists s', h. rewrite Hrun, Hh', Hh. auto.
      * destruct (IH s1 true (fun _ => Hb)) as (s' & h & Hrun & Hh' & Hthr).
        exists s', (Advanced timestamp :: h). rewrite Hrun, Hh', Hh.
        rewrite <- app_assoc. repeat split; trivial.
        destruct pending; [|reflexivity].
        destruct (Hpend eq_refl) as (Hp & Hf & Hr).
        destruct Hguard as [Hg | [Hg | Hg]]; congruence.
    + destruct (childWrites_effect lines s) as (s1 & k & -> & Hh & Hr & Hf & Hp).
      destruct (IH s1 (match k with O => pending | S _ => false end))
        as (s' & h & Hrun & Hh' & Hthr).
      { destruct k; [|discriminate].
        intros H. destruct (Hpend H) as (Bp & Bf & Br).
        unfold blocked. rewrite Hp, Hf, (Hr eq_refl). tauto. }
      exists s', (List.repeat FrameRead k ++ h). rewrite Hrun, Hh', Hh.
      rewrite <- app_assoc. repeat split; trivial.
      now apply throttledFrom_reads.
Qed.

(** C9.  [frame] does nothing on an instance that is not initialized or is
    stopped.  A call of [frame] that advances the clock found that a frame
    had been read since the last advance, or that no frame command had been
    sent to the child yet (a child that it had to start first included);
    on an instance whose last frame command is unanswered it changes
    neither the clock nor what was sent.  Hence in every run of [frame]
    calls interleaved with output of the child, a frame was read between
    any two advances. *)
Theorem frame_throttled :
  (forall timestamp s,
      initialized s = false \/ stopped s = true -> frame timestamp s = Some s)
  /\ (forall timestamp s s',
         frame timestamp s = Some s' -> history s' <> history s ->
         history s' = history s ++ [Advanced timestamp]
         /\ (hasProcess s = false \/ readFrame s = true \/ firstFrame s = false))
  /\ (forall timestamp s,
         blocked s ->
         exists s',
           frame timestamp s = Some s' /\ history s' = history s
           /\ sent s' = sent s /\ lastFrame s' = lastFrame s)
  /\ (forall calls s,
         exists s' h,
           runCalls calls s = Some s'
           /\ history s' = history s ++ h
           /\ forall h1 t1 mid t2 h2,
               h = h1 ++ Advanced t1 :: mid ++ Advanced t2 :: h2 ->
               In FrameRead mid).
Proof.
  split; [|split; [|split]].
  - intros timestamp s [Hu | Hs]; unfold frame.
    + now rewrite Hu.
    + rewrite Hs. now rewrite orb_true_r.
  - intros timestamp s s' Hframe Hchanged.
    destruct (frame_effect timestamp s) as (s1 & Heq & [(Hh & _) | (Hh & Hg & _)]);
      rewrite Heq in Hframe; injection Hframe as <-; [contradiction|].
    now split.
  - intros timestamp s (Hp & Hf & Hr).
    destruct (frame_effect timestamp s)
      as (s1 & Heq & [(Hh & Hs & Hl & _) | (_ & Hg & _)]).
    + exists s1. auto.
    + destruct Hg as [Hg | [Hg | Hg]]; congruence.
  - intros calls s.
    destruct (runCalls_throttled calls s false) as (s' & h & Hrun & Hh & Hthr);
      [discriminate|].
    exists s', h. repeat split; trivial.
    now apply (throttledFrom_between false).
Qed.

(** * Further properties of the catalog *)

Lemma distinct_NoDup (l : list string) : distinct l = true -> NoDup l.
Proof.
  induction l as [|x rest IH]; cbn; [constructor|].
  intros H. apply andb_true_iff in H as [Hx Hrest].
  constructor; [|now apply IH].
  intros Hin. apply list_elem_of_In in Hin. apply negb_true_iff in Hx.
  assert (E : existsb (String.eqb x) rest = true).
  { apply existsb_exists. exists x. split; [exact Hin|apply String.eqb_refl]. }
  congruence.
Qed.

Lemma hasParam_false_notin (st : LoadState) (name : string) :
  loadInv st -> QString.toLower name = name ->
  hasParam (ls_info st) name = false ->
  ~ In name (paramNames (ls_info st)).
Proof.
  intros Inv Hlow Hno Hin. unfold paramNames in Hin.
  apply in_map_iff in Hin as [q [Hn Hq]].
  assert (hasParam (ls_info st) name = true)
    by (apply (hasParam_name st name Inv Hlow); eauto).
  congruence.
Qed.

Lemma paramNames_append (p : Param.t) (i : Info.t) :
  paramNames (Info.append p i) = paramNames i ++ [Param.name p].
Proof. unfold paramNames. rewrite params_append. apply map_app. Qed.

Lemma NoDup_snoc (l : list string) (x : string) :
  NoDup l -> ~ In x l -> NoDup (l ++ [x]).
Proof.
  intros Hl Hx. apply NoDup_app. repeat split; trivial.
  - intros y Hy Hy'. apply list_elem_of_In in Hy.
    apply list_elem_of_In in Hy'. destruct Hy' as [<- | []]. contradiction.
  - repeat constructor. intros H. apply list_elem_of_In in H. contradiction.
Qed.

(** The second invariant of the read loop: the declared names are pairwise
    different, and a declared [trigger] or [kptrigger] is a [Bool]. *)
Lemma loadLine_names (st : LoadState) (line : string) :
  loadInv st ->
  NoDup (paramNames (ls_info st))
  /\ (forall q, In q (Info.params (ls_info st)) ->
                Param.name q = "trigger" \/ Param.name q = "kptrigger" ->
                Param.type q = Param.BOOL) ->
  NoDup (paramNames (ls_info (loadLine st line)))
  /\ (forall q, In q (Info.params (ls_info (loadLine st line))) ->
                Param.name q = "trigger" \/ Param.name q = "kptrigger" ->
                Param.type q = Param.BOOL).
Proof.
  intros Inv [Hnd Hbool].
  apply loadLine_cases.
  - now split.
  - intros f Hf. unfold paramNames, onInfo. cbn [ls_info].
    destruct (Hf (ls_info st)) as [_ ->]. now split.
  - intros b _. now split.
  - intros components. apply loadParam_cases.
    + now split.
    + intros prefix postfix def Habs Hno Hlo Hhi. cbn [ls_info].
      rewrite paramNames_append, params_append. split.
      * apply NoDup_snoc; trivial.
        now apply (hasParam_false_notin st "duration").
      * intros q Hq Hn. apply in_app_iff in Hq as [Hq | [<- | []]];
          [now apply Hbool|].
        cbn in Hn. destruct Hn; discriminate.
    + intros type name prefix postfix def minimum maximum
             Hnd' Hsyn Hlow Hno Htrig.
      unfold onInfo. cbn [ls_info].
      rewrite paramNames_append, params_append. split.
      * apply NoDup_snoc; trivial. now apply hasParam_false_notin.
      * intros q Hq Hn. apply in_app_iff in Hq as [Hq | [<- | []]];
          [now apply Hbool|].
        now apply Htrig.
Qed.

Lemma readInfo_names (lines : list string) (st : LoadState) :
  loadInv st ->
  NoDup (paramNames (ls_info st))
  /\ (forall q, In q (Info.params (ls_info st)) ->
                Param.name q = "trigger" \/ Param.name q = "kptrigger" ->
                Param.type q = Param.BOOL) ->
  NoDup (paramNames (ls_info (readInfo st lines)))
  /\ (forall q, In q (Info.params (ls_info (readInfo st lines))) ->
                Param.name q = "trigger" \/ Param.name q = "kptrigger" ->
                Param.type q = Param.BOOL).
Proof.
  revert st. induction lines as [|line rest IH]; intros st Inv H; cbn; trivial.
  destruct (String.eqb line ""); trivial.
  apply IH; [now apply loadInv_line|now apply loadLine_names].
Qed.

Lemma parsed_names (p : InfoProcess) :
  NoDup (paramNames (ls_info (parsed p)))
  /\ (forall q, In q (Info.params (ls_info (parsed p))) ->
                Param.name q = "trigger" \/ Param.name q = "kptrigger" ->
                Param.type q = Param.BOOL).
Proof.
  apply readInfo_names; [apply loadInv_start; reflexivity|].
  split; [constructor|]. intros q [].
Qed.

Lemma timingParams_distinct (st : LoadState) :
  NoDup (List.map Param.name (timingParams st)).
Proof.
  apply distinct_NoDup. unfold timingParams.
  destruct (hasParam (ls_info st) "trigger"),
           (hasParam (ls_info st) "kptrigger"),
           (Info.absoluteTime (ls_info st)),
           (Info.repeat (ls_info st)),
           (dlt (defaultDuration st) 0); reflexivity.
Qed.

(** An appended parameter has a name that the script did not declare. *)
Lemma timingParams_fresh (st : LoadState) (q : Param.t) :
  loadInv st -> In q (timingParams st) ->
  ~ In (Param.name q) (paramNames (ls_info st)).
Proof.
  intros Inv Hq Hin.
  assert (Hsyn : forall q', In q' (Info.params (ls_info st)) ->
                            Param.name q' = Param.name q ->
                            isSynthesized (Param.name q) = false).
  { intros q' Hq' <-. now apply Inv. }
  unfold paramNames in Hin. apply in_map_iff in Hin as [q' [Hn Hq']].
  pose proof (Hsyn q' Hq' Hn) as Hs.
  apply in_timingParams in Hq.
  assert (Hdecl : hasParam (ls_info st) (Param.name q) = false ->
                  QString.toLower (Param.name q) = Param.name q -> False).
  { intros Hno Hlow.
    apply (hasParam_false_notin st _ Inv Hlow Hno).
    unfold paramNames. apply in_map_iff. eauto. }
  repeat match type of Hq with
         | _ \/ _ => destruct Hq as [Hq | Hq]
         | _ /\ _ => destruct Hq as [? Hq]
         end; subst q; try discriminate.
  - now apply Hdecl.
  - now apply Hdecl.
  - apply Hdecl; [|reflexivity]. cbn [Param.name secondsParam].
    destruct (hasParam (ls_info st) "duration") eqn:E; [|reflexivity].
    destruct (effectiveDefaultDuration_some st Inv E) as [_ Hpos]. congruence.
Qed.

(** X1.  The parameters of an accepted descriptor have pairwise different
    names: the declared ones among themselves, the injected ones among
    themselves, and no injected one repeats a declared one. *)
Theorem accepted_names_unique (p : InfoProcess) (i : Info.t) :
  load p Info.empty = (true, i) -> NoDup (paramNames i).
Proof.
  intros Hload. apply load_accepted in Hload as (_ & _ & ->).
  unfold paramNames. rewrite addTimingParams_params, map_app.
  apply NoDup_app. repeat split.
  - apply parsed_names.
  - intros x Hx Hx'. apply list_elem_of_In in Hx. apply list_elem_of_In in Hx'.
    apply in_map_iff in Hx' as [q [<- Hq]].
    exact (timingParams_fresh _ q (parsed_inv p) Hq Hx).
  - apply timingParams_distinct.
Qed.

(** X2.  In an accepted descriptor the parameters [trigger] and [kptrigger]
    are of type Bool, whether the script declared them or [load] added
    them. *)
Theorem accepted_triggers_bool (p : InfoProcess) (i : Info.t) :
  load p Info.empty = (true, i) ->
  forall q, In q (Info.params i) ->
            Param.name q = "trigger" \/ Param.name q = "kptrigger" ->
            Param.type q = Param.BOOL.
Proof.
  intros Hload q Hq Hn. apply load_accepted in Hload as (_ & _ & ->).
  rewrite addTimingParams_params in Hq.
  apply in_app_iff in Hq as [Hq | Hq].
  - now apply (proj2 (parsed_names p)).
  - apply in_timingParams in Hq.
    repeat match type of Hq with
           | _ \/ _ => destruct Hq as [Hq | Hq]
           | _ /\ _ => destruct Hq as [? Hq]
           end; subst q; try reflexivity; destruct Hn; discriminate.
Qed.

Lemma addTimingParams_preempt (st : LoadState) :
  Info.preempt (addTimingParams st)
  = if Info.absoluteTime (ls_info st) || negb (Info.repeat (ls_info st))
    then false else Info.preempt (ls_info st).
Proof.
  unfold addTimingParams. rewrite hasParam_kptrigger_after_trigger.
  timing_cases st; reflexivity.
Qed.

(** X3.  An accepted descriptor has preemption only in relative time with
    repeats: [load] clears the flag otherwise, whatever the script asked
    for and in whatever order. *)
Theorem accepted_preempt_needs_repeat (p : InfoProcess) (i : Info.t) :
  load p Info.empty = (true, i) ->
  Info.preempt i = true ->
  Info.absoluteTime i = false /\ Info.repeat i = true.
Proof.
  intros Hload. apply load_accepted in Hload as (_ & _ & ->).
  rewrite addTimingParams_preempt, addTimingParams_absoluteTime,
    addTimingParams_repeat.
  destruct (Info.absoluteTime (ls_info (parsed p))),
           (Info.repeat (ls_info (parsed p))); cbn; intros H;
    try discriminate; now split.
Qed.
(** ** Required fields *)

Lemma loadParam_fieldMissing (components : list string) (st : LoadState)
    (c : string) :
  fieldMissing c (ls_info (loadParam components st))
  = fieldMissing c (ls_info st).
Proof. apply loadParam_cases; reflexivity. Qed.

(** A line changes a required field only if it carries its command. *)
Lemma loadLine_fieldMissing (st : LoadState) (line c : string) :
  commandOf line <> c ->
  fieldMissing c (ls_info (loadLine st line)) = fieldMissing c (ls_info st).
Proof.
  intros Hc. unfold loadLine.
  change (QString.trimmed (QString.at_ (QString.split (QString.trimmed line)) 0))
    with (commandOf line).
  destruct (length (QString.split (QString.trimmed line)) <? 2)%nat;
    [reflexivity|].
  repeat match goal with
         | |- context [if String.eqb (commandOf line) ?w then _ else _] =>
             destruct (String.eqb_spec (commandOf line) w) as [Hw | _]
         end;
    try reflexivity;
    try (unfold fieldMissing, onInfo; cbn [ls_info];
         rewrite <- Hw;
         repeat match goal with
                | |- context [String.eqb c ?w] =>
                    destruct (String.eqb_spec c w) as [-> | _]
                end;
         first [reflexivity | congruence]).
  - destruct (dlt 0 (defaultDuration st)); reflexivity.
  - apply loadParam_fieldMissing.
Qed.

Lemma readInfo_fieldMissing (lines : list string) (st : LoadState) (c : string) :
  existsb (fun line => String.eqb (commandOf line) c) lines = false ->
  fieldMissing c (ls_info (readInfo st lines)) = fieldMissing c (ls_info st).
Proof.
  revert st. induction lines as [|line rest IH]; intros st H; cbn in *;
    [reflexivity|].
  apply orb_false_iff in H as [Hline Hrest].
  destruct (String.eqb line ""); [reflexivity|].
  rewrite IH by exact Hrest.
  apply loadLine_fieldMissing. now apply String.eqb_neq.
Qed.

Lemma requiredMissing_field (i : Info.t) (c : string) :
  In c requiredCommands -> requiredMissing i = false -> fieldMissing c i = false.
Proof.
  unfold requiredMissing, requiredCommands. intros Hc H.
  repeat (apply orb_false_iff in H as [H ?]).
  cbn in Hc.
  repeat match type of Hc with
         | _ \/ _ => destruct Hc as [<- | Hc]
         | False => contradiction
         end; assumption.
Qed.

(** X4.  A script is accepted only if its info output has, for each of
    guid, name, version, year, author and license, a line that carries that
    command: a field for which no line was printed stays missing, and
    [load] returns false. *)
Theorem accepted_has_required_lines (p : InfoProcess) (i : Info.t) :
  load p Info.empty = (true, i) ->
  forall c, In c requiredCommands ->
            exists line, In line (infoLines p) /\ commandOf line = c.
Proof.
  intros Hload c Hc. apply load_accepted in Hload as (_ & Hreq & _).
  destruct (existsb (fun line => String.eqb (commandOf line) c) (infoLines p))
    eqn:E.
  - apply existsb_exists in E as [line [Hin Heq]].
    exists line. split; [exact Hin|now apply String.eqb_eq].
  - exfalso.
    pose proof (requiredMissing_field _ c Hc Hreq) as Hfield.
    unfold parsed in Hfield. rewrite (readInfo_fieldMissing _ _ c E) in Hfield.
    unfold requiredCommands in Hc. cbn in Hc.
    repeat match type of Hc with
           | _ \/ _ => destruct Hc as [<- | Hc]
           | False => contradiction
           end; discriminate.
Qed.

(** ** [copy] on a scanned registry *)

Lemma addTimingParams_guid (st : LoadState) :
  Info.guid (addTimingParams st) = Info.guid (ls_info st).
Proof.
  unfold addTimingParams. rewrite hasParam_kptrigger_after_trigger.
  timing_cases st; reflexivity.
Qed.

Lemma firstValid_some (g : QUuid) (dir : list (string * InfoProcess))
    (file : string * InfoProcess) :
  firstValid g dir = Some file ->
  In file dir /\ valid file = true /\ guidOf file = g.
Proof.
  unfold firstValid. intros H. apply find_some in H as [Hin Hb].
  apply andb_true_iff in Hb as [Hv Hg]. apply N.eqb_eq in Hg. auto.
Qed.

Lemma valid_guid_nonzero (file : string * InfoProcess) :
  valid file = true -> guidOf file <> 0%N.
Proof.
  intros Hv. pose proof Hv as Hv'. apply valid_iff in Hv' as (_ & Hg & _).
  unfold guidOf, infoOf. unfold valid in Hv.
  destruct (load (snd file) Info.empty) as [ok info] eqn:E. cbn in Hv. subst ok.
  apply load_accepted in E as (_ & _ & ->). cbn [snd].
  now rewrite addTimingParams_guid.
Qed.

(** X5.  [copy] on the registry that [scan] built returns null exactly for
    the guids that no valid script of the directory has.  Otherwise the new
    instance carries the path and the descriptor of the first valid script
    with that guid; its guid is the one asked for and is not null, and it
    is neither initialized nor bound to a child. *)
Theorem copy_of_scanned (dir : list (string * InfoProcess)) (g : QUuid) :
  (copy (scan dir) g = None <-> firstValid g dir = None)
  /\ (forall inst,
         copy (scan dir) g = Some inst ->
         exists file,
           firstValid g dir = Some file /\ In file dir /\ valid file = true
           /\ _path inst = fst file /\ _info inst = infoOf file
           /\ Info.guid (_info inst) = g /\ g <> 0%N
           /\ initialized inst = false /\ process inst = None).
Proof.
  unfold copy, scan. rewrite scan_fold_lookup, lookup_empty.
  destruct (firstValid g dir) as [file|] eqn:E; cbn.
  - split; [split; discriminate|].
    intros inst [= <-]. exists file.
    destruct (firstValid_some g dir file E) as (Hin & Hv & Hg).
    repeat split; trivial.
    rewrite <- Hg. now apply valid_guid_nonzero.
  - split; [tauto|]. discriminate.
Qed.

(** ** The [duration] declaration and the time mode *)

Lemma append_neq (q : Param.t) (i : Info.t) : Info.append q i <> i.
Proof.
  intros H. apply (f_equal (fun j => length (Info.params j))) in H.
  rewrite params_append, length_app in H. cbn in H. lia.
Qed.

(** X6.  A [param] line that declares [duration] changes the state of the
    read loop only in relative time, with the type Double and a default
    that is a number of [0.1, 86400] or NaN, which no comparison finds out
    of range; the parameter then gets the minimum 0.1 and the maximum
    86400 and its default becomes the default duration.  The first such
    declaration of a number of [0.1, 86400] does change the state. *)
Theorem duration_declaration (components : list string) (st : LoadState) :
  declaredName components = "duration" ->
  (loadParam components st <> st ->
   Info.absoluteTime (ls_info st) = false
   /\ declaredType components = Some Param.DOUBLE
   /\ (toDouble (declaredDefault components) = DNaN
       \/ exists q, toDouble (declaredDefault components) = DNum q
                    /\ (1 # 10 <= q)%Q /\ (q <= 86400)%Q)
   /\ defaultDuration (loadParam components st)
      = toDouble (declaredDefault components)
   /\ exists prefix postfix,
       ls_info (loadParam components st) =
       Info.append
         (Param.mk Param.DOUBLE "duration" prefix postfix
                   (declaredDefault components)
                   (VDouble (1 # 10)) (VDouble 86400))
         (ls_info st))
  /\ ((3 <= length components)%nat ->
      declaredType components = Some Param.DOUBLE ->
      hasParam (ls_info st) "duration" = false ->
      Info.absoluteTime (ls_info st) = false ->
      forall q, toDouble (declaredDefault components) = DNum q ->
                (1 # 10 <= q)%Q -> (q <= 86400)%Q ->
                loadParam components st <> st).
Proof.
  intros Hname. split.
  - intros Hacc.
    destruct (loadParam_duration components st Hname)
      as [Hrej | (Habs & Hty & Hlo & Hhi & prefix & postfix & Heq)];
      [contradiction|].
    rewrite Heq. cbn [defaultDuration ls_info].
    repeat split; trivial; [|eauto].
    exact (dlt_range _ _ _ Hlo Hhi).
  - intros Hlen Hty Hno Hrel q Hq Hlo Hhi.
    rewrite (loadParam_duration_accepted components st); trivial.
    + intros H. apply (f_equal ls_info) in H. cbn [ls_info] in H.
      exact (append_neq _ _ H).
    + rewrite Hq. cbn. now apply Qltb_ge.
    + rewrite Hq. cbn. now apply Qltb_ge.
Qed.

(** X7.  When the read loop of an accepted script kept no [duration], the
    default duration is 1.0 and, in relative time, the Double parameter
    [duration] with default 1.0, minimum 0.1 and maximum 86400 is in the
    descriptor.  When it kept one, the default duration is the default of
    that declaration: a number of [0.1, 86400] or NaN. *)
Theorem default_duration_settled (p : InfoProcess) (i : Info.t) :
  load p Info.empty = (true, i) ->
  (hasParam (ls_info (parsed p)) "duration" = false ->
   effectiveDefaultDuration (parsed p) = 1%Q
   /\ (Info.absoluteTime i = false ->
       In (Param.mk Param.DOUBLE "duration" "" "" (VDouble 1)
                    (VDouble (1 # 10)) (VDouble 86400)) (Info.params i)))
  /\ (hasParam (ls_info (parsed p)) "duration" = true ->
      effectiveDefaultDuration (parsed p) = defaultDuration (parsed p)
      /\ (defaultDuration (parsed p) = DNaN
          \/ exists q, defaultDuration (parsed p) = DNum q
                       /\ (1 # 10 <= q)%Q /\ (q <= 86400)%Q)).
Proof.
  intros Hload. split.
  - intros Hno. apply load_accepted in Hload as (_ & _ & ->).
    pose proof (parsed_inv p) as Inv.
    destruct (effectiveDefaultDuration_none _ Inv Hno) as [Heff Hneg].
    split; [exact Heff|].
    rewrite addTimingParams_absoluteTime. intros Hrel.
    rewrite addTimingParams_params. apply in_app_iff. right.
    pose proof (timingParams_always (parsed p))
      as (_ & _ & _ & _ & _ & Hdur & _).
    specialize (Hdur Hneg Hrel). rewrite Heff in Hdur. exact Hdur.
  - intros Hyes. pose proof (parsed_inv p) as Inv.
    destruct (effectiveDefaultDuration_some _ Inv Hyes) as [Heff _].
    destruct Inv as (_ & _ & _ & I4). destruct (I4 Hyes) as (Hlo & Hhi & _).
    split; [exact Heff|]. exact (dlt_range _ _ _ Hlo Hhi).
Qed.

(** A parameter named [duration] of the final list was declared by the
    script, or the time mode is relative. *)
Lemma duration_injected_relative (st : LoadState) (q : Param.t) :
  In q (Info.params (addTimingParams st)) -> Param.name q = "duration" ->
  In q (Info.params (ls_info st))
  \/ Info.absoluteTime (addTimingParams st) = false.
Proof.
  intros Hq Hn. rewrite addTimingParams_absoluteTime.
  rewrite addTimingParams_params in Hq.
  apply in_app_iff in Hq as [Hq | Hq]; [now left|].
  apply in_timingParams in Hq.
  repeat match type of Hq with
         | _ \/ _ => destruct Hq as [Hq | Hq]
         | _ /\ _ => destruct Hq as [? Hq]
         end; subst q; try discriminate; now right.
Qed.

(** X8.  An accepted descriptor is in absolute time and has a [duration]
    parameter only if the script declared that parameter with a default
    that reads as NaN.  Otherwise the two exclude each other: a [time]
    line read after a [duration] with a number as default was kept leaves
    the state of the loop unchanged, a [duration] declared in absolute time
    is skipped, and [load] adds its own [duration] in relative time only. *)
Theorem absolute_duration_only_nan (p : InfoProcess) (i : Info.t) :
  load p Info.empty = (true, i) ->
  (Info.absoluteTime i = true -> hasParam i "duration" = true ->
   defaultDuration (parsed p) = DNaN
   /\ exists q, In q (Info.params i) /\ Param.name q = "duration"
                /\ toDouble (Param.defaultValue q) = DNaN)
  /\ (forall st line,
         loadInv st -> hasParam (ls_info st) "duration" = true ->
         defaultDuration st <> DNaN -> commandOf line = "time" ->
         loadLine st line = st /\ Info.absoluteTime (ls_info st) = false)
  /\ (forall st components,
         declaredName components = "duration" ->
         Info.absoluteTime (ls_info st) = true ->
         loadParam components st = st)
  /\ (forall st q,
         In q (Info.params (addTimingParams st)) -> Param.name q = "duration" ->
         In q (Info.params (ls_info st))
         \/ Info.absoluteTime (addTimingParams st) = false).
Proof.
  intros Hload. split; [|split; [|split]].
  - intros Habs Hhas.
    apply load_accepted in Hload as (_ & _ & ->).
    pose proof (parsed_inv p) as Inv.
    apply hasParam_true in Hhas as [q [Hq Hn]].
    change (QString.toLower "duration") with "duration" in Hn.
    assert (Hname : Param.name q = "duration").
    { rewrite addTimingParams_params in Hq.
      apply in_app_iff in Hq as [Hq | Hq].
      - destruct Inv as (I1 & _). destruct (I1 q Hq) as [<- _]. exact Hn.
      - apply in_timingParams in Hq.
        repeat match type of Hq with
               | _ \/ _ => destruct Hq as [Hq | Hq]
               | _ /\ _ => destruct Hq as [? Hq]
               end; subst q; try discriminate; reflexivity. }
    destruct (duration_injected_relative _ q Hq Hname) as [Hold | Hrel];
      [|congruence].
    rewrite addTimingParams_absoluteTime in Habs.
    assert (Hd : hasParam (ls_info (parsed p)) "duration" = true).
    { apply (hasParam_name _ "duration" Inv eq_refl). eauto. }
    destruct Inv as (_ & _ & I3 & I4).
    destruct (I4 Hd) as (_ & _ & Hnan).
    split; [now apply Hnan|].
    exists q. split; [exact Hq|]. split; [exact Hname|].
    destruct (I3 q Hold Hname) as (_ & _ & _ & ->). now apply Hnan.
  - intros st line (_ & _ & _ & I4) Hd Hnum Hline.
    destruct (I4 Hd) as (Hlo & Hhi & Hnan).
    split.
    + apply loadLine_time; trivial.
      destruct (dlt 0 (defaultDuration st)) eqn:E; [reflexivity|].
      elim Hnum. now apply dlt_range_positive.
    + destruct (Info.absoluteTime (ls_info st)); [|reflexivity].
      elim Hnum. now apply Hnan.
  - intros st components Hname Habs.
    destruct (loadParam_duration components st Hname)
      as [Hrej | (Hrel & _)]; [exact Hrej|congruence].
  - apply duration_injected_relative.
Qed.

End Engine.

(** * The theorems on concrete data *)

#[local] Existing Instance qtRef.

(** [sampleIdle] is what [init] makes of a fresh copy of the descriptor. *)
Example sampleIdle_init :
  init (fun _ => None) [] sampleValues
       (set_info sampleLive (newAnimScript "/anim/wave"))
  = sampleIdle.
Proof. vm_compute. reflexivity. Qed.

(** C6 on the code.  The check of a declared [duration] is
    [value < 0.1 || value > ONE_DAY], which is false for NaN: a [duration]
    whose default is the text [nan] is kept, although its default is not in
    [0.1, 86400]; the default duration is then NaN and not 1.0, the
    parameters [repeat] and [kprepeat] get NaN as their default, and no
    [duration] with default 1.0 is added. *)
Theorem duration_nan_accepted :
  toDouble (VString "nan") = DNaN
  /\ loadParam ["param"; "double"; "duration"; "Duration:"; "s"; "nan"]
       (loadStart Info.empty)
     = {| ls_info :=
            Info.append
              (Param.mk Param.DOUBLE "duration" "Duration:" "s" (VString "nan")
                        (VDouble (1 # 10)) (VDouble 86400))
              (ls_info (loadStart Info.empty));
          defaultDuration := DNaN |}
  /\ fst (load sampleNaN Info.empty) = true
  /\ Info.absoluteTime (snd (load sampleNaN Info.empty)) = false
  /\ effectiveDefaultDuration (parsed sampleNaN) = DNaN
  /\ In (Param.mk Param.DOUBLE "duration" "Duration:" "s" (VString "nan")
                  (VDouble (1 # 10)) (VDouble 86400))
        (Info.params (snd (load sampleNaN Info.empty)))
  /\ In (Param.mk Param.DOUBLE "repeat" "" "" (VDouble DNaN)
                  (VDouble (1 # 10)) (VDouble 86400))
        (Info.params (snd (load sampleNaN Info.empty)))
  /\ ~ In (Param.mk Param.DOUBLE "duration" "" "" (VDouble 1)
                    (VDouble (1 # 10)) (VDouble 86400))
          (Info.params (snd (load sampleNaN Info.empty))).
Proof.
  repeat split; try (vm_compute; reflexivity);
    vm_compute; intuition discriminate.
Qed.

(** A script that declares [duration] with default 0.05 is accepted; its
    declaration is dropped and the default of one second is injected.  A
    default of 2.5 is kept. *)
Example duration_out_of_range_dropped :
  fst (load (sampleInfo guidA "0.05" []) Info.empty) = true
  /\ hasParam (ls_info (parsed (sampleInfo guidA "0.05" []))) "duration" = false
  /\ In (Param.mk Param.DOUBLE "duration" "" "" (VDouble 1)
                  (VDouble (1 # 10)) (VDouble 86400))
        (Info.params (snd (load (sampleInfo guidA "0.05" []) Info.empty)))
  /\ In (Param.mk Param.DOUBLE "duration" "Duration:" "s" (VString "2.5")
                  (VDouble (1 # 10)) (VDouble 86400))
        (Info.params (snd (load (sampleInfo guidA "2.5" []) Info.empty)))
  /\ effectiveDefaultDuration (parsed (sampleInfo guidA "2.5" [])) = (5 # 2)%Q.
Proof.
  repeat split; try (vm_compute; reflexivity); vm_compute; tauto.
Qed.

(** C10 on the code.  After a [duration] with the default [nan] was kept,
    [defaultDuration > 0.] is false and a [time absolute] line is obeyed:
    the script is accepted with absolute time and with a [duration]
    parameter, which the comment of the [time] branch rules out. *)
Theorem absolute_time_with_nan_duration :
  fst (load sampleNaNAbsolute Info.empty) = true
  /\ Info.absoluteTime (snd (load sampleNaNAbsolute Info.empty)) = true
  /\ hasParam (snd (load sampleNaNAbsolute Info.empty)) "duration" = true
  /\ In (Param.mk Param.DOUBLE "duration" "Duration:" "s" (VString "nan")
                  (VDouble (1 # 10)) (VDouble 86400))
        (Info.params (snd (load sampleNaNAbsolute Info.empty)))
  /\ Info.absoluteTime
       (ls_info
          (loadLine
             (loadParam ["param"; "double"; "duration"; "Duration:"; "s"; "nan"]
                (loadStart Info.empty))
             ("time absolute" +:+ LF))) = true.
Proof.
  repeat split; try (vm_compute; reflexivity); vm_compute; tauto.
Qed.


Example absolute_after_duration_ignored :
  Info.absoluteTime
    (snd (load (sampleInfo guidB "2.5" ["time absolute"]) Info.empty)) = false.
Proof. vm_compute. reflexivity. Qed.

(** Two valid scripts with distinct guids and one that hangs: two entries. *)
Lemma scan_accepts_valid_once_witness :
  NoDup (map guidOf (List.filter valid sampleDir))
  /\ length (List.filter valid sampleDir) = 2%nat
  /\ size (scan sampleDir) = 2%nat.
Proof.
  assert (Hnd : NoDup (map guidOf (List.filter valid sampleDir))).
  { vm_compute. repeat constructor; rewrite ?list_elem_of_In; cbn; intuition discriminate. }
  split; [exact Hnd|]. split; [vm_compute; reflexivity|].
  destruct (scan_accepts_valid_once sampleDir) as (_ & _ & _ & Hsize).
  rewrite (Hsize Hnd). vm_compute. reflexivity.
Defined.

(** A later script with the guid of an earlier one is discarded. *)
Example scan_first_seen_wins :
  size (scan sampleDirDup) = 2%nat
  /\ option_map _path (scan sampleDirDup !! uuidFromString guidA)
     = Some "/anim/a".
Proof. split; vm_compute; reflexivity. Qed.

(** A tick 2.5 durations after the last one. *)
Lemma nextFrame_emits_witness :
  process sampleRunning = Some sampleChild
  /\ durationMsec sampleRunning <> 0%Z
  /\ (2500 - lastFrame sampleRunning < 2 ^ 53)%Z
  /\ exists s' cmds,
      nextFrame 2500 sampleRunning = Some s'
      /\ lastFrame s' = 2500%Z
      /\ process s'
         = Some {| childOutput := childOutput sampleChild;
                   childInput := childInput sampleChild ++ cmds |}
      /\ cmds = [Frame 1; Frame 1; Frame (1 # 2)].
Proof.
  split; [reflexivity|]. split; [discriminate|]. split; [cbn; lia|].
  destruct (nextFrame_emits 2500 sampleRunning sampleChild)
    as (s' & cmds & Hnext & Hlast & Hproc & _ & _ & H25);
    [reflexivity|discriminate|cbn; lia|lia|cbn; lia|].
  exists s', cmds. repeat split; trivial.
  apply H25; [reflexivity|cbn; lia|reflexivity].
Defined.

Example nextFrame_two_and_a_half :
  option_map sent (nextFrame 2500 sampleRunning)
  = Some [Frame 1; Frame 1; Frame (1 # 2)].
Proof. vm_compute. reflexivity. Qed.

Example nextFrame_same_timestamp :
  option_map sent (nextFrame 0 sampleRunning) = Some [Frame 0].
Proof. vm_compute. reflexivity. Qed.


Example retrigger_on_running_child :
  option_map (fun s => (sent s, history s)) (retrigger 10000 true sampleRunning)
  = Some ([Frame 1; Frame 1; Frame 1; Frame 1; Frame 1; Frame 1; Frame 1;
           Frame 1; Frame 1; Frame (1 # 2); Start; Frame (1 # 2); Start],
          [Advanced 9500; Advanced 10000]).
Proof. vm_compute. reflexivity. Qed.

Example retrigger_at_10000 :
  option_map (fun s => (sent s, history s)) (retrigger 10000 true sampleIdle)
  = Some ([BeginKeymap; Keycount 0; EndKeymap; BeginParams;
           ParamLine "duration" (VDouble (1 # 2));
           ParamLine "repeat" (VDouble (1 # 2)); EndParams; BeginRun;
           Frame 0; Start; Frame 1; Start],
          [Advanced 9500; Advanced 10000]).
Proof. vm_compute. reflexivity. Qed.

(** C3, as the claim states it, fails on an initialized instance with live
    parameters and no child: the value mapping is not replaced. *)
Lemma parameters_without_child :
  initialized sampleIdle = true
  /\ Info.liveParams (_info sampleIdle) = true
  /\ parameters sampleNewValues sampleIdle = Some sampleIdle
  /\ _paramValues sampleIdle <> sampleNewValues.
Proof.
  split; [reflexivity|]. split; [reflexivity|]. split; [reflexivity|].
  discriminate.
Qed.

Lemma parameters_guarded_witness :
  initialized sampleRunning = true
  /\ process sampleRunning = Some sampleChild
  /\ Info.liveParams (_info sampleRunning) = true
  /\ exists s',
      parameters sampleNewValues sampleRunning = Some s'
      /\ _paramValues s' = sampleNewValues
      /\ durationMsec s' = 2000%Z
      /\ repeatMsec s' = 1000%Z
      /\ sent s'
         = [BeginParams; ParamLine "duration" (VDouble 2);
            ParamLine "repeat" (VDouble 1); EndParams].
Proof.
  split; [reflexivity|]. split; [reflexivity|]. split; [reflexivity|].
  destruct (proj2 (parameters_guarded sampleNewValues sampleRunning)
              sampleChild eq_refl eq_refl eq_refl)
    as (s' & Hpar & Hvals & Hdur & Hrep & Hproc).
  exists s'. split; [exact Hpar|]. split; [exact Hvals|].
  split; [rewrite Hdur; vm_compute; reflexivity|].
  split; [rewrite Hrep; vm_compute; reflexivity|].
  unfold sent. rewrite Hproc. reflexivity.
Defined.

(** C2, as the claim states it, fails when [end run] arrives between
    [begin frame] and [end frame]: the instance is not stopped and the line
    after it is read as well. *)
Lemma end_run_inside_frame :
  option_map (fun s => (stopped s, inputBuffer s,
                        option_map childOutput (process s)))
    (childWrites ["begin frame" +:+ LF; "end run" +:+ LF;
                  "argb a ff00ff00" +:+ LF] sampleRunning)
  = Some (false, ["begin frame"; "end run"; "argb a ff00ff00"], Some []).
Proof. vm_compute. reflexivity. Qed.

Lemma end_run_outside_frame_witness :
  QString.trimmed ("end run" +:+ LF) = "end run"
  /\ inputBuffer sampleRunning = []
  /\ readLines ["end run" +:+ LF; "begin frame" +:+ LF] sampleRunning
     = (["begin frame" +:+ LF], set_stopped true sampleRunning).
Proof.
  assert (Htrim : QString.trimmed ("end run" +:+ LF) = "end run")
    by (vm_compute; reflexivity).
  split; [exact Htrim|]. split; [reflexivity|].
  exact (proj1 (end_run_outside_frame ("end run" +:+ LF) ["begin frame" +:+ LF]
                  sampleRunning Htrim) eq_refl).
Defined.

(** A frame that ends after the [end run] that it contains is read whole. *)
Example end_run_then_end_frame :
  option_map (fun s => (stopped s, readFrame s, history s))
    (childWrites ["begin frame" +:+ LF; "end run" +:+ LF; "end frame" +:+ LF]
                 sampleRunning)
  = Some (false, true, [FrameRead]).
Proof. vm_compute. reflexivity. Qed.

Lemma frame_throttled_witness :
  stopped (set_stopped true sampleRunning) = true
  /\ frame 16 (set_stopped true sampleRunning)
     = Some (set_stopped true sampleRunning).
Proof.
  split; [reflexivity|].
  apply (proj1 frame_throttled). right. reflexivity.
Defined.

(** Three ticks and one frame of output: the second tick does not advance. *)
Example frames_wait_for_the_child :
  option_map (fun s => (history s, sent s))
    (runCalls [CallFrame 0; CallFrame 16;
               CallChildWrites ["begin frame" +:+ LF; "end frame" +:+ LF];
               CallFrame 33] sampleIdle)
  = Some ([Advanced 0; FrameRead; Advanced 33],
          [BeginKeymap; Keycount 0; EndKeymap; BeginParams;
           ParamLine "duration" (VDouble (1 # 2));
           ParamLine "repeat" (VDouble (1 # 2)); EndParams; BeginRun;
           Frame 0; Frame (33 # 500)]).
Proof. vm_compute. reflexivity. Qed.

(** C5 on the code.  Two scripts named [Foo] and one named [Foo A]: in
    whatever order the registry enumerates them, the names of the returned
    list are not in ascending order, as the script renamed first stays
    under its old key.  Three scripts named [Foo]: the one visited first
    gets its guid appended twice. *)
Theorem list_keeps_stale_key :
  forallb (fun order =>
             negb (ascending (displayNames (listFrom order sampleRegistry))))
          ordersOfThree = true
  /\ displayNames (listFrom [1; 2; 3]%N sampleRegistry)
     = ["Foo {00000000-0000-0000-0000-000000000001}"; "Foo A";
        "Foo {00000000-0000-0000-0000-000000000002}"]
  /\ negb (ascending (displayNames (listScripts sampleRegistry))) = true
  /\ displayNames (listFrom [1; 2; 3]%N sampleTriple)
     = ["Foo {00000000-0000-0000-0000-000000000001} {00000000-0000-0000-0000-000000000001}";
        "Foo {00000000-0000-0000-0000-000000000002}";
        "Foo {00000000-0000-0000-0000-000000000003}"].
Proof. repeat split; vm_compute; reflexivity. Qed.

(** Two scripts named alike and one of another name that sorts first: both
    get the suffix, the third keeps its name, and the list is in order. *)
Example list_two_alike :
  displayNames
    (listFrom [1; 2; 3]%N
       (<[1%N := sampleScript 1%N "Foo"]>
          (<[2%N := sampleScript 2%N "Foo"]>
             (<[3%N := sampleScript 3%N "Bar"]> ∅))))
  = ["Bar"; "Foo {00000000-0000-0000-0000-000000000001}";
     "Foo {00000000-0000-0000-0000-000000000002}"].
Proof. vm_compute. reflexivity. Qed.


(** * Further properties on concrete data *)

Lemma sampleDeclared_load :
  load sampleDeclared Info.empty = (true, snd (load sampleDeclared Info.empty)).
Proof. vm_compute. reflexivity. Qed.

Lemma accepted_names_unique_witness :
  fst (load sampleDeclared Info.empty) = true
  /\ NoDup (paramNames (snd (load sampleDeclared Info.empty))).
Proof.
  split; [vm_compute; reflexivity|].
  exact (accepted_names_unique sampleDeclared _ sampleDeclared_load).
Defined.

Lemma accepted_triggers_bool_witness :
  fst (load sampleDeclared Info.empty) = true
  /\ forall q, In q (Info.params (snd (load sampleDeclared Info.empty))) ->
               Param.name q = "trigger" -> Param.type q = Param.BOOL.
Proof.
  split; [vm_compute; reflexivity|]. intros q Hin Hname.
  exact (accepted_triggers_bool sampleDeclared _ sampleDeclared_load q Hin
           (or_introl Hname)).
Defined.

Lemma accepted_preempt_needs_repeat_witness :
  Info.preempt (snd (load sampleDeclared Info.empty)) = true
  /\ Info.absoluteTime (snd (load sampleDeclared Info.empty)) = false
  /\ Info.repeat (snd (load sampleDeclared Info.empty)) = true.
Proof.
  assert (Hpre : Info.preempt (snd (load sampleDeclared Info.empty)) = true)
    by (vm_compute; reflexivity).
  split; [exact Hpre|].
  exact (accepted_preempt_needs_repeat sampleDeclared _ sampleDeclared_load Hpre).
Defined.

Lemma accepted_has_required_lines_witness :
  fst (load sampleDeclared Info.empty) = true
  /\ exists line, In line (infoLines sampleDeclared) /\ commandOf line = "year".
Proof.
  split; [vm_compute; reflexivity|].
  apply (accepted_has_required_lines sampleDeclared _ sampleDeclared_load).
  vm_compute. tauto.
Defined.

(** Of two scripts with one guid, [copy] gives an instance of the first. *)
Lemma copy_of_scanned_witness :
  exists inst,
    copy (scan sampleDirDup) (uuidFromString guidA) = Some inst
    /\ _path inst = "/anim/a" /\ process inst = None.
Proof.
  destruct (copy (scan sampleDirDup) (uuidFromString guidA)) as [inst|] eqn:E.
  - exists inst.
    destruct (proj2 (copy_of_scanned sampleDirDup (uuidFromString guidA)) inst E)
      as (file & Hf & _ & _ & Hpath & _ & _ & _ & _ & Hproc).
    split; [reflexivity|]. split; [|exact Hproc].
    rewrite Hpath. vm_compute in Hf. injection Hf as <-. reflexivity.
  - exfalso. vm_compute in E. discriminate.
Defined.

(** The first declaration of a [duration] with the default 2.5. *)
Lemma duration_declaration_witness :
  declaredName ["param"; "double"; "duration"; "Duration:"; "s"; "2.5"]
  = "duration"
  /\ loadParam ["param"; "double"; "duration"; "Duration:"; "s"; "2.5"]
       (loadStart Info.empty)
     <> loadStart Info.empty.
Proof.
  assert (Hname : declaredName
                    ["param"; "double"; "duration"; "Duration:"; "s"; "2.5"]
                  = "duration") by (vm_compute; reflexivity).
  split; [exact Hname|].
  apply (proj2 (duration_declaration _ (loadStart Info.empty) Hname))
    with (q := (5 # 2)%Q).
  - cbn. lia.
  - vm_compute. reflexivity.
  - reflexivity.
  - reflexivity.
  - vm_compute. reflexivity.
  - discriminate.
  - discriminate.
Defined.

Lemma default_duration_settled_witness :
  fst (load (sampleInfo guidA "0.05" []) Info.empty) = true
  /\ hasParam (ls_info (parsed (sampleInfo guidA "0.05" []))) "duration" = false
  /\ In (Param.mk Param.DOUBLE "duration" "" "" (VDouble 1)
                  (VDouble (1 # 10)) (VDouble 86400))
        (Info.params (snd (load (sampleInfo guidA "0.05" []) Info.empty))).
Proof.
  assert (Hload : load (sampleInfo guidA "0.05" []) Info.empty
                  = (true, snd (load (sampleInfo guidA "0.05" []) Info.empty)))
    by (vm_compute; reflexivity).
  assert (Hno : hasParam (ls_info (parsed (sampleInfo guidA "0.05" [])))
                         "duration" = false)
    by (vm_compute; reflexivity).
  split; [vm_compute; reflexivity|]. split; [exact Hno|].
  destruct (default_duration_settled _ _ Hload) as (Hnone & _).
  destruct (Hnone Hno) as [_ Hin].
  apply Hin. vm_compute. reflexivity.
Defined.

Lemma absolute_duration_only_nan_witness :
  Info.absoluteTime (snd (load sampleNaNAbsolute Info.empty)) = true
  /\ hasParam (snd (load sampleNaNAbsolute Info.empty)) "duration" = true
  /\ defaultDuration (parsed sampleNaNAbsolute) = DNaN.
Proof.
  assert (Hload : load sampleNaNAbsolute Info.empty
                  = (true, snd (load sampleNaNAbsolute Info.empty)))
    by (vm_compute; reflexivity).
  assert (Habs : Info.absoluteTime (snd (load sampleNaNAbsolute Info.empty))
                 = true) by (vm_compute; reflexivity).
  assert (Hhas : hasParam (snd (load sampleNaNAbsolute Info.empty)) "duration"
                 = true) by (vm_compute; reflexivity).
  split; [exact Habs|]. split; [exact Hhas|].
  exact (proj1 (proj1 (absolute_duration_only_nan _ _ Hload) Habs Hhas)).
Defined.
